(** * mliev-push-go: request signing and dispatch

    A shallow embedding of the Go client library [mlievpush]:
    - [sortParams] and [generateSignature] (the signer),
    - [doRequest], [SendMessage], [SendBatch], [QueryTask] (the dispatcher),
    - [APIError], [IsAPIError], [ErrorCodeMessages], [GetErrorMessage].

    Go strings are byte sequences; they are modelled by [string], whose
    characters are 8-bit [ascii] values, so a string literal holding
    non-ASCII text stands for its UTF-8 bytes, as in Go.  A byte slice is a
    [list Z] with every element in [0, 256).

    Part I holds the definitions, Part II the lemmas and theorems. *)

From Stdlib Require Import ZArith NArith List Ascii String DecimalString Lia.
From Stdlib Require Import DecimalZ DecimalPos.
From stdpp Require Import base option list sorting strings gmap.

Set Warnings "-register-all".

Local Open Scope Z_scope.
Local Open Scope string_scope.
Local Open Scope list_scope.

(** * Part I: the program *)

(** ** Strings and bytes *)

(** Go's [<=] and [<] on strings compare byte by byte; [sort.Strings] and
    the map encoder of [encoding/json] both use this order. *)
Definition str_le (s1 s2 : string) : Prop := String.leb s1 s2 = true.
Definition str_lt (s1 s2 : string) : Prop := String.ltb s1 s2 = true.

#[global] Instance str_le_dec s1 s2 : Decision (str_le s1 s2).
Proof. unfold str_le. apply _. Defined.

#[global] Instance str_lt_dec s1 s2 : Decision (str_lt s1 s2).
Proof. unfold str_lt. apply _. Defined.

Definition dquote : ascii := "034"%char.
Definition bslash : ascii := "092"%char.

(** [dq s] is [s] with each apostrophe turned into a double quote: JSON
    texts are written [dq "{'key':'value'}"]. *)
Fixpoint dq (s : string) : string :=
  match s with
  | "" => ""
  | String c t => String (if Ascii.eqb c "'" then dquote else c) (dq t)
  end.

(** The range of a Go [byte]. *)
Definition is_byte (b : Z) : Prop := 0 ≤ b < 256.

(** [[]byte(s)] *)
Definition bytes_of_string (s : string) : list Z :=
  map (fun c => Z.of_N (N_of_ascii c)) (list_ascii_of_string s).

(** [const hextable = "0123456789abcdef"], indexed as [hextable[i]] *)
Definition hextable : string := "0123456789abcdef".

(** An index outside the table (a run-time panic in Go) reads as [?]. *)
Definition hexdigit (i : nat) : ascii :=
  match String.get i hextable with
  | Some c => c
  | None => "?"%char
  end.

(** [strconv.FormatInt(n, 10)] *)
Definition FormatInt (n : Z) : string := NilZero.string_of_int (Z.to_int n).

(** ** [encoding/hex] *)
Module hex.

(** [hex.EncodeToString]: for each byte [v] the characters
    [hextable[v>>4]] and [hextable[v&0x0f]]. *)
Fixpoint EncodeToString (src : list Z) : string :=
  match src with
  | [] => ""
  | v :: rest =>
      String (hexdigit (Z.to_nat (Z.shiftr v 4)))
        (String (hexdigit (Z.to_nat (Z.land v 0x0f))) (EncodeToString rest))
  end.

End hex.

(** ** [unicode/utf8] *)
Module utf8.

Definition RuneError : N := 0xFFFD.

Definition between (lo hi b : N) : bool := ((lo <=? b) && (b <=? hi))%N.

(** The table [first] for a leading byte at or above [0x80]: the width of
    the encoding and the accepted range of the second byte; [None] for a
    byte that cannot start an encoding. *)
Definition first (s0 : N) : option (nat * N * N) :=
  if between 0xC2 0xDF s0 then Some (2%nat, 0x80, 0xBF)%N
  else if (s0 =? 0xE0)%N then Some (3%nat, 0xA0, 0xBF)%N
  else if between 0xE1 0xEC s0 then Some (3%nat, 0x80, 0xBF)%N
  else if (s0 =? 0xED)%N then Some (3%nat, 0x80, 0x9F)%N
  else if between 0xEE 0xEF s0 then Some (3%nat, 0x80, 0xBF)%N
  else if (s0 =? 0xF0)%N then Some (4%nat, 0x90, 0xBF)%N
  else if between 0xF1 0xF3 s0 then Some (4%nat, 0x80, 0xBF)%N
  else if (s0 =? 0xF4)%N then Some (4%nat, 0x80, 0x8F)%N
  else None.

Definition cont (c : ascii) : N := N.land (N_of_ascii c) 0x3F.

(** [utf8.DecodeRuneInString]: the first rune of [s] and its width; a
    malformed or truncated encoding gives [(RuneError, 1)]. *)
Definition DecodeRuneInString (s : string) : N * nat :=
  match s with
  | "" => (RuneError, 0%nat)
  | String c0 t0 =>
    let s0 := N_of_ascii c0 in
    if (s0 <? 0x80)%N then (s0, 1%nat) else
    match first s0 with
    | None => (RuneError, 1%nat)
    | Some (sz, lo, hi) =>
      if (String.length s <? sz)%nat then (RuneError, 1%nat) else
      match t0 with
      | "" => (RuneError, 1%nat)
      | String c1 t1 =>
        if negb (between lo hi (N_of_ascii c1)) then (RuneError, 1%nat) else
        if (sz <=? 2)%nat
        then (N.lor (N.shiftl (N.land s0 0x1F) 6) (cont c1), 2%nat) else
        match t1 with
        | "" => (RuneError, 1%nat)
        | String c2 t2 =>
          if negb (between 0x80 0xBF (N_of_ascii c2)) then (RuneError, 1%nat) else
          if (sz <=? 3)%nat
          then (N.lor (N.shiftl (N.land s0 0x0F) 12)
                  (N.lor (N.shiftl (cont c1) 6) (cont c2)), 3%nat) else
          match t2 with
          | "" => (RuneError, 1%nat)
          | String c3 _ =>
            if negb (between 0x80 0xBF (N_of_ascii c3)) then (RuneError, 1%nat) else
            (N.lor (N.shiftl (N.land s0 0x07) 18)
               (N.lor (N.shiftl (cont c1) 12)
                  (N.lor (N.shiftl (cont c2) 6) (cont c3))), 4%nat)
          end
        end
      end
    end
  end.


(** [utf8.AppendRune]: the bytes of the encoding of [r]; a surrogate or a
    value above [MaxRune] is written as [RuneError]. *)
Definition AppendRune (r : N) : list N :=
  if (r <=? 0x7F)%N then [r]
  else if (r <=? 0x7FF)%N
  then [N.lor 0xC0 (N.shiftr r 6); N.lor 0x80 (N.land r 0x3F)]
  else
    let r3 := if ((0x10FFFF <? r) || (0xD800 <=? r) && (r <=? 0xDFFF))%N
              then Some RuneError
              else if (r <=? 0xFFFF)%N then Some r else None in
    match r3 with
    | Some r =>
        [N.lor 0xE0 (N.shiftr r 12); N.lor 0x80 (N.land (N.shiftr r 6) 0x3F);
         N.lor 0x80 (N.land r 0x3F)]
    | None =>
        [N.lor 0xF0 (N.shiftr r 18); N.lor 0x80 (N.land (N.shiftr r 12) 0x3F);
         N.lor 0x80 (N.land (N.shiftr r 6) 0x3F); N.lor 0x80 (N.land r 0x3F)]
    end.

End utf8.

(** [string(runes)]: the UTF-8 text of a sequence of code points. *)
Definition string_of_runes (rs : list N) : string :=
  string_of_list_ascii (map ascii_of_N (flat_map utf8.AppendRune rs)).






(** ** Go values held in an [interface{}] *)

(** The dynamic values that reach the JSON encoder.  A Go map is the list
    of its entries, keys pairwise distinct, in the order in which the
    runtime happens to iterate over it: any permutation of the list is
    the same map.  [VNil] is a nil interface, pointer, map or slice.
    [VStruct] lists the encoded fields of a struct in declaration order.
    [VOther enc] is a value of any other dynamic type (a [float64], a
    [json.Marshaler], a channel...), given by what the encoder produces for
    it: [None] when the encoder reports an error. *)
Inductive value :=
  | VNil
  | VBool (b : bool)
  | VInt (n : Z)
  | VString (s : string)
  | VSlice (vs : list value)
  | VMap (kvs : list (string * value))
  | VStruct (fields : list (string * value))
  | VOther (enc : option string).

(** A [map[string]interface{}]: [None] is the nil map. *)
Abbreviation gomap := (option (list (string * value))).

(** [len(m)] *)
Definition map_len (m : gomap) : nat :=
  match m with
  | None => 0%nat
  | Some kvs => length kvs
  end.

(** The keys visited by [for k := range m], in iteration order. *)
Definition map_range (m : gomap) : list string :=
  match m with
  | None => []
  | Some kvs => kvs.*1
  end.

Fixpoint assoc (k : string) (kvs : list (string * value)) : option value :=
  match kvs with
  | [] => None
  | (k', v) :: rest => if decide (k' = k) then Some v else assoc k rest
  end.

(** [m[k]]: the zero value of [interface{}] when the key is missing. *)
Definition map_index (m : gomap) (k : string) : value :=
  match m with
  | None => VNil
  | Some kvs => default VNil (assoc k kvs)
  end.

(** [m[k] = v] on a non-nil map: an existing entry is overwritten, a new
    one joins the map (at the end of the list, one of the positions the
    runtime may give it). *)
Fixpoint map_assign (kvs : list (string * value)) (k : string) (v : value)
  : list (string * value) :=
  match kvs with
  | [] => [(k, v)]
  | (k', v') :: rest =>
      if decide (k' = k) then (k, v) :: rest else (k', v') :: map_assign rest k v
  end.

(** The map as an [interface{}] value. *)
Definition value_of_map (m : gomap) : value :=
  match m with
  | None => VNil
  | Some kvs => VMap kvs
  end.

(** ** [encoding/json]: the encoder *)
Module json.

Definition escape (tail : string) : string := String bslash tail.

(** One byte below [utf8.RuneSelf] in [appendString] with [escapeHTML]
    set, as [json.Marshal] sets it (Go 1.22 and later, where backspace
    and form feed have short escapes). *)
Definition appendASCII (c : ascii) : string :=
  let b := N_of_ascii c in
  if ((b =? 0x5C) || (b =? 0x22))%N then escape (String c "")
  else if (b =? 0x08)%N then escape "b"
  else if (b =? 0x0C)%N then escape "f"
  else if (b =? 0x0A)%N then escape "n"
  else if (b =? 0x0D)%N then escape "r"
  else if (b =? 0x09)%N then escape "t"
  else if ((b <? 0x20) || (b =? 0x3C) || (b =? 0x3E) || (b =? 0x26))%N
  then escape ("u00" +:+ String (hexdigit (N.to_nat (N.shiftr b 4)))
                         (String (hexdigit (N.to_nat (N.land b 0xF))) ""))
  else String c "".

(** The loop of [appendString].  [pending] counts the bytes of the rune
    under the cursor that are still to be passed over: copied when [keep]
    is set, dropped otherwise (the rune was replaced by an escape). *)
Fixpoint appendBody (keep : bool) (pending : nat) (s : string) : string :=
  match s with
  | "" => ""
  | String c t =>
    match pending with
    | S n => if keep then String c (appendBody keep n t) else appendBody keep n t
    | O =>
      if (N_of_ascii c <? 0x80)%N then appendASCII c +:+ appendBody true 0 t else
      let '(r, size) := utf8.DecodeRuneInString s in
      if (r =? utf8.RuneError)%N && (size =? 1)%nat
      then escape "ufffd" +:+ appendBody true 0 t
      else if ((r =? 0x2028) || (r =? 0x2029))%N
      then escape "u202" +:+
             String (hexdigit (N.to_nat (N.land r 0xF))) (appendBody false (size - 1) t)
      else String c (appendBody true (size - 1) t)
    end
  end.

(** [appendString]: a quoted JSON string.  Bytes of valid UTF-8 above
    [0x7F] are copied as they are, except U+2028 and U+2029. *)
Definition appendString (s : string) : string :=
  String dquote (appendBody true 0 s +:+ String dquote "").

(** The map encoder orders the entries by key. *)
Definition entry_le {A} : relation (string * A) := fun x y => str_le x.1 y.1.

#[global] Instance entry_le_dec {A} (x y : string * A) : Decision (entry_le x y).
Proof. unfold entry_le. apply _. Defined.

(** One [key:value] member, the value already encoded ([None]: its
    encoding failed). *)
Definition writeField (kv : string * option string) : option string :=
  e ← kv.2; Some (appendString kv.1 +:+ ":" +:+ e).

(** The members in the order given, between braces. *)
Definition writeObject (fields : list (string * option string)) : option string :=
  fs ← mapM writeField fields; Some ("{" +:+ String.concat "," fs +:+ "}").

(** [mapEncoder.encode]: sort the entries by key, then write them. *)
Definition encodeMap (fields : list (string * option string)) : option string :=
  writeObject (merge_sort entry_le fields).

(** The encoder on a value; [None] stands for a returned error. *)
Fixpoint encode (v : value) : option string :=
  match v with
  | VNil => Some "null"
  | VBool b => Some (if b then "true" else "false")
  | VInt n => Some (FormatInt n)
  | VString s => Some (appendString s)
  | VSlice vs =>
      es ← mapM encode vs; Some ("[" +:+ String.concat "," es +:+ "]")
  | VMap kvs =>
      encodeMap (map (fun kv => let '(k, x) := kv in (k, encode x)) kvs)
  | VStruct fields =>
      writeObject (map (fun kv => let '(k, x) := kv in (k, encode x)) fields)
  | VOther enc => enc
  end.

(** [json.Marshal] *)
Definition Marshal (v : value) : option string := encode v.

End json.

(** The entries of a map with their values encoded. *)
Definition encoded (kvs : list (string * value)) : list (string * option string) :=
  map (fun kv => let '(k, x) := kv in (k, json.encode x)) kvs.

(** [string(b)] for the slice returned next to a discarded error: the
    slice is nil when the call failed. *)
Definition string_of_result (r : option string) : string := default "" r.

(** ** The signer (signature.go) *)

(** [sort.Strings] *)
Definition sort_Strings (keys : list string) : list string := merge_sort str_le keys.

(** [sortParams]: the canonical parameter string. *)
Definition sortParams (params : gomap) : string :=
  if (map_len params =? 0)%nat then "" else
  let keys := sort_Strings (map_range params) in
  let sortedMap :=
    foldl (fun m k => map_assign m k (map_index params k)) [] keys in
  let result := json.Marshal (VMap sortedMap) in
  string_of_result result.

(** The value of [sortedMap] when [sortParams] reaches the encoder. *)
Definition rebuilt (kvs : list (string * value)) : list (string * value) :=
  foldl (fun m k => map_assign m k (map_index (Some kvs) k)) []
    (sort_Strings kvs.*1).

(** The canonicalizer without the sort-and-rebuild step: the parameter
    map handed to [json.Marshal] as it is. *)
Definition marshalParams (params : gomap) : string :=
  string_of_result (json.Marshal (value_of_map params)).

(** The parameter map of the package's test and of the specification's
    example, in the order of the source. *)
Definition example_params : list (string * value) :=
  [ ("channel_id", VInt 1);
    ("receiver", VString "13800138000");
    ("template_params", VMap [("code", VString "123456")]) ].

(** ** [crypto/sha256] *)
Module sha256.

Definition BlockSize : nat := 64.
Definition Size : nat := 32.

(** [uint32] arithmetic: values are kept in [0, 2^32). *)
Definition u32 (x : Z) : Z := Z.land x 0xFFFFFFFF.
Definition add32 (x y : Z) : Z := u32 (x + y).
Definition not32 (x : Z) : Z := Z.lxor x 0xFFFFFFFF.

(** [bits.RotateLeft32(x, -k)] *)
Definition rotr (x k : Z) : Z :=
  Z.lor (Z.shiftr x k) (u32 (Z.shiftl x (32 - k))).

(** The constants of FIPS 180-4, from their definition: the first 32
    bits of the fractional parts of the cube roots of the first 64 primes
    (the table [_K]) and of the square roots of the first 8 primes (the
    initial chaining value). *)
Definition is_prime (n : Z) : bool :=
  forallb (fun d => negb (n mod d =? 0)%Z) (seqZ 2 (n - 2)).

Definition primes : list Z := take 64 (filter (fun n => is_prime n = true) (seqZ 2 310)).

(** The integer cube root of [n < 2^120], found bit by bit. *)
Definition cbrt_floor (n : Z) : Z :=
  foldl (fun r i =>
           let r' := Z.lor r (Z.shiftl 1 i) in
           if (r' * r' * r' <=? n)%Z then r' else r)
        0 (reverse (seqZ 0 40)).

Definition _K : list Z :=
  Eval vm_compute in
    map (fun p => Z.land (cbrt_floor (p * 2 ^ 96)) 0xFFFFFFFF) primes.

(** The chaining value [h[0..7]], also the working variables [a..h]. *)
Record regs := Regs { r0 : Z; r1 : Z; r2 : Z; r3 : Z; r4 : Z; r5 : Z; r6 : Z; r7 : Z }.

Definition frac_sqrt (p : Z) : Z := Z.land (Z.sqrt (p * 2 ^ 64)) 0xFFFFFFFF.

Definition init : regs :=
  Eval vm_compute in
    Regs (frac_sqrt 2) (frac_sqrt 3) (frac_sqrt 5) (frac_sqrt 7)
         (frac_sqrt 11) (frac_sqrt 13) (frac_sqrt 17) (frac_sqrt 19).

(** Four bytes as a big-endian word, and back. *)
Definition be32 (b0 b1 b2 b3 : Z) : Z :=
  Z.lor (Z.lor (Z.shiftl b0 24) (Z.shiftl b1 16)) (Z.lor (Z.shiftl b2 8) b3).

Definition putUint32 (w : Z) : list Z :=
  [ Z.land (Z.shiftr w 24) 0xFF; Z.land (Z.shiftr w 16) 0xFF;
    Z.land (Z.shiftr w 8) 0xFF; Z.land w 0xFF ].

Definition putUint64 (n : Z) : list Z :=
  putUint32 (Z.shiftr n 32) ++ putUint32 n.

(** The first sixteen schedule words [w[0..15]] of a block. *)
Fixpoint words (p : list Z) : list Z :=
  match p with
  | b0 :: b1 :: b2 :: b3 :: rest => be32 b0 b1 b2 b3 :: words rest
  | _ => []
  end.

Definition at_ (w : list Z) (i : nat) : Z := nth i w 0.

(** [w[i] = t1 + w[i-7] + t2 + w[i-16]] for [i] from [length w], [n] times. *)
Fixpoint schedule (n : nat) (w : list Z) : list Z :=
  match n with
  | O => w
  | S n' =>
      let i := length w in
      let v1 := at_ w (i - 2) in
      let t1 := Z.lxor (Z.lxor (rotr v1 17) (rotr v1 19)) (Z.shiftr v1 10) in
      let v2 := at_ w (i - 15) in
      let t2 := Z.lxor (Z.lxor (rotr v2 7) (rotr v2 18)) (Z.shiftr v2 3) in
      schedule n' (w ++ [add32 (add32 (add32 t1 (at_ w (i - 7))) t2) (at_ w (i - 16))])
  end.

(** One round of the compression loop, on the pair [(_K[i], w[i])]. *)
Definition round (s : regs) (kw : Z * Z) : regs :=
  let '(Regs a b c d e f g h) := s in
  let t1 :=
    add32 (add32 (add32 (add32 h
      (Z.lxor (Z.lxor (rotr e 6) (rotr e 11)) (rotr e 25)))
      (Z.lxor (Z.land e f) (Z.land (not32 e) g))) kw.1) kw.2 in
  let t2 :=
    add32 (Z.lxor (Z.lxor (rotr a 2) (rotr a 13)) (rotr a 22))
          (Z.lxor (Z.lxor (Z.land a b) (Z.land a c)) (Z.land b c)) in
  Regs (add32 t1 t2) a b c (add32 d t1) e f g.

(** [block] on one 64-byte chunk. *)
Definition block1 (hh : regs) (p : list Z) : regs :=
  let w := schedule 48 (words p) in
  let s := foldl round hh (zip _K w) in
  Regs (add32 (r0 hh) (r0 s)) (add32 (r1 hh) (r1 s))
       (add32 (r2 hh) (r2 s)) (add32 (r3 hh) (r3 s))
       (add32 (r4 hh) (r4 s)) (add32 (r5 hh) (r5 s))
       (add32 (r6 hh) (r6 s)) (add32 (r7 hh) (r7 s)).

(** [block] on [n] consecutive chunks of [p]. *)
Fixpoint block (n : nat) (hh : regs) (p : list Z) : regs :=
  match n with
  | O => hh
  | S n' => block n' (block1 hh (take 64 p)) (drop 64 p)
  end.

(** The padding of [checkSum]: [0x80], zeros up to 56 modulo 64, then the
    length in bits as a big-endian [uint64]. *)
Definition padding (len : nat) : list Z :=
  let t :=
    if (len mod 64 <? 56)%nat then (56 - len mod 64)%nat
    else (64 + 56 - len mod 64)%nat in
  0x80 :: repeat 0 (t - 1)%nat
    ++ putUint64 (Z.land (Z.shiftl (Z.of_nat len) 3) 0xFFFFFFFFFFFFFFFF).

(** The digest of a whole message. *)
Definition checkSum (msg : list Z) : list Z :=
  let p := msg ++ padding (length msg) in
  let s := block (length p / 64) init p in
  putUint32 (r0 s) ++ putUint32 (r1 s) ++ putUint32 (r2 s) ++ putUint32 (r3 s)
  ++ putUint32 (r4 s) ++ putUint32 (r5 s) ++ putUint32 (r6 s) ++ putUint32 (r7 s).

(** A [hash.Hash] made by [sha256.New]: the state is determined by the
    bytes written since the last [Reset]. *)
Record digest := Digest { written : list Z }.

Definition New : digest := Digest [].
Definition Reset (d : digest) : digest := Digest [].
Definition Write (d : digest) (p : list Z) : digest := Digest (written d ++ p).

(** [d.Sum(b)] appends the hash of what was written to [b]; [d] is left
    as it was. *)
Definition Sum (d : digest) (b : list Z) : list Z := b ++ checkSum (written d).

End sha256.

(** ** [crypto/hmac] over SHA-256 *)
Module hmac.

Record HMAC := Mac {
  opad : list Z;
  ipad : list Z;
  outer : sha256.digest;
  inner : sha256.digest
}.

(** [copy(dst, key)] into a zeroed block. *)
Definition copy_key (blocksize : nat) (key : list Z) : list Z :=
  take blocksize key ++ repeat 0 (blocksize - length key)%nat.

(** [hmac.New(sha256.New, key)] *)
Definition New (key : list Z) : HMAC :=
  let outer := sha256.New in
  let inner := sha256.New in
  let blocksize := sha256.BlockSize in
  let '(outer, key) :=
    if (blocksize <? length key)%nat
    then let outer := sha256.Write outer key in (outer, sha256.Sum outer [])
    else (outer, key) in
  let ipad := map (fun b => Z.lxor b 0x36) (copy_key blocksize key) in
  let opad := map (fun b => Z.lxor b 0x5c) (copy_key blocksize key) in
  Mac opad ipad outer (sha256.Write inner ipad).

Definition Write (h : HMAC) (p : list Z) : HMAC :=
  Mac (opad h) (ipad h) (outer h) (sha256.Write (inner h) p).

(** [h.Sum(in)]; only the result is returned, the object is not used
    again by the caller. *)
Definition Sum (h : HMAC) (in_ : list Z) : list Z :=
  let origLen := length in_ in
  let in_ := sha256.Sum (inner h) in_ in
  let outer := sha256.Reset (outer h) in
  let outer := sha256.Write outer (opad h) in
  let outer := sha256.Write outer (drop origLen in_) in
  sha256.Sum outer (take origLen in_).

End hmac.

(** [generateSignature] *)
Definition generateSignature
    (method path : string) (params : gomap) (timestamp nonce appSecret : string)
  : string :=
  let sortedParams := sortParams params in
  let signContent := method +:+ path +:+ sortedParams +:+ timestamp +:+ nonce in
  let mac := hmac.New (bytes_of_string appSecret) in
  let mac := hmac.Write mac (bytes_of_string signContent) in
  hex.EncodeToString (hmac.Sum mac []).


(** ** The signature as the specification words it *)

(** HMAC as RFC 2104 defines it, over SHA-256:
    [H((K0 xor opad) || H((K0 xor ipad) || text))], where [K0] is the key,
    hashed first when longer than a block, filled with zeros to the block
    size. *)
Definition HMAC_SHA256 (key text : list Z) : list Z :=
  let k := if (64 <? length key)%nat then sha256.checkSum key else key in
  let k0 := k ++ repeat 0 (64 - length k)%nat in
  sha256.checkSum (map (fun b => Z.lxor b 0x5c) k0
    ++ sha256.checkSum (map (fun b => Z.lxor b 0x36) k0 ++ text)).

(** Lowercase hexadecimal: two digits for each byte, the high one first. *)
Definition hex_lower (bs : list Z) : string :=
  string_of_list_ascii
    (flat_map (fun b => [hexdigit (Z.to_nat (b / 16)); hexdigit (Z.to_nat (b mod 16))]) bs).

(** [computeSignature] of the specification. *)
Definition computeSignature
    (method path : string) (params : gomap) (timestamp nonce secret : string)
  : string :=
  let canonicalParams := sortParams params in
  hex_lower
    (HMAC_SHA256 (bytes_of_string secret)
       (bytes_of_string method ++ bytes_of_string path
        ++ bytes_of_string canonicalParams
        ++ bytes_of_string timestamp ++ bytes_of_string nonce)).

(** A lowercase hexadecimal digit: [0-9] or [a-f]. *)
Definition is_lower_hex (c : ascii) : bool :=
  let n := N_of_ascii c in
  ((48 <=? n) && (n <=? 57) || (97 <=? n) && (n <=? 102))%N.

(** ** Errors (errors.go) *)

Record APIError := { Code : Z; Message : string }.

(** A non-nil Go [error]: a pointer to an [APIError], an error wrapped by
    [fmt.Errorf] under a message (the verb [%w]), or an error value made
    by a library ([encoding/json], [net/http], [io]). *)
Inductive error :=
  | ErrAPI (e : APIError)
  | ErrWrap (msg : string) (cause : error)
  | ErrLib (text : string).

(** The method [Error] of [APIError] *)
Definition APIError_Error (e : APIError) : string :=
  "API error [" +:+ FormatInt (Code e) +:+ "]: " +:+ Message e.

Definition NewAPIError (code : Z) (message : string) : APIError :=
  {| Code := code; Message := message |}.

(** [IsAPIError]: a type assertion to pointer-to-[APIError] on the
    interface value itself ([None] is the nil error); a wrapped error is
    not unwrapped. *)
Definition IsAPIError (err : option error) : bool :=
  match err with
  | Some (ErrAPI _) => true
  | _ => false
  end.

Definition ErrCodeInvalidParams : Z := 10001.
Definition ErrCodeInvalidJSON : Z := 10002.
Definition ErrCodeMissingParams : Z := 10003.
Definition ErrCodeInvalidValue : Z := 10004.
Definition ErrCodeInvalidReceiver : Z := 10005.
Definition ErrCodeInvalidTemplate : Z := 10006.

Definition ErrCodeUnauthorized : Z := 20001.
Definition ErrCodeInvalidAppID : Z := 20002.
Definition ErrCodeInvalidSignature : Z := 20003.
Definition ErrCodeInvalidTimestamp : Z := 20004.
Definition ErrCodeIPNotAllowed : Z := 20005.
Definition ErrCodeAppDisabled : Z := 20006.

Definition ErrCodeRateLimitExceeded : Z := 30001.
Definition ErrCodeQuotaExceeded : Z := 30002.
Definition ErrCodeChannelNotFound : Z := 30003.
Definition ErrCodeChannelDisabled : Z := 30004.
Definition ErrCodeTemplateNotFound : Z := 30005.
Definition ErrCodeNoAvailableChannel : Z := 30006.
Definition ErrCodeTaskNotFound : Z := 30007.
Definition ErrCodeBatchNotFound : Z := 30008.

Definition ErrCodeInternalError : Z := 40001.
Definition ErrCodeDatabaseError : Z := 40002.
Definition ErrCodeRedisError : Z := 40003.
Definition ErrCodeQueueError : Z := 40004.
Definition ErrCodeProviderError : Z := 40005.
Definition ErrCodeNetworkTimeout : Z := 40006.
Definition ErrCodeCircuitOpen : Z := 40007.

(** The entries of the map literal, in the order of the source. *)
Definition ErrorCodeMessages_literal : list (Z * string) :=
  [ (ErrCodeInvalidParams, "请求参数错误");
    (ErrCodeInvalidJSON, "JSON格式错误");
    (ErrCodeMissingParams, "缺少必填参数");
    (ErrCodeInvalidValue, "参数值非法");
    (ErrCodeInvalidReceiver, "接收者格式错误");
    (ErrCodeInvalidTemplate, "模板参数错误");
    (ErrCodeUnauthorized, "未授权");
    (ErrCodeInvalidAppID, "无效的AppID");
    (ErrCodeInvalidSignature, "签名验证失败");
    (ErrCodeInvalidTimestamp, "时间戳无效");
    (ErrCodeIPNotAllowed, "IP不在白名单");
    (ErrCodeAppDisabled, "应用已禁用");
    (ErrCodeRateLimitExceeded, "超出速率限制");
    (ErrCodeQuotaExceeded, "超出配额限制");
    (ErrCodeChannelNotFound, "通道不存在");
    (ErrCodeChannelDisabled, "通道已禁用");
    (ErrCodeTemplateNotFound, "模板不存在");
    (ErrCodeNoAvailableChannel, "无可用通道");
    (ErrCodeTaskNotFound, "任务不存在");
    (ErrCodeBatchNotFound, "批量任务不存在");
    (ErrCodeInternalError, "内部错误");
    (ErrCodeDatabaseError, "数据库错误");
    (ErrCodeRedisError, "Redis错误");
    (ErrCodeQueueError, "队列错误");
    (ErrCodeProviderError, "服务商错误");
    (ErrCodeNetworkTimeout, "网络超时");
    (ErrCodeCircuitOpen, "熔断器打开") ].

(** [ErrorCodeMessages], a [map[int]string]. *)
Definition ErrorCodeMessages : gmap Z string :=
  list_to_map ErrorCodeMessages_literal.

(** [GetErrorMessage] *)
Definition GetErrorMessage (code : Z) : string :=
  match ErrorCodeMessages !! code with
  | Some msg => msg
  | None => "未知错误"
  end.

(** ** Payloads and results (types.go) *)

Record SendMessageRequest := {
  smr_ChannelID : Z;
  smr_SignatureName : string;
  smr_Receiver : string;
  smr_TemplateParams : gomap;
  smr_ScheduledAt : string
}.

Record SendBatchRequest := {
  sbr_ChannelID : Z;
  sbr_SignatureName : string;
  sbr_Receivers : option (list string);
  sbr_TemplateParams : gomap;
  sbr_ScheduledAt : string
}.

Module Response.
Record t := { Code : Z; Message : string; Data : string }.
End Response.

Record SendMessageData := {
  smd_TaskID : string; smd_Status : string; smd_CreatedAt : string
}.

Record SendBatchData := {
  sbd_BatchID : string; sbd_TotalCount : Z; sbd_SuccessCount : Z;
  sbd_FailedCount : Z; sbd_CreatedAt : string
}.

Record QueryTaskData := {
  qtd_ID : Z; qtd_TaskID : string; qtd_AppID : string; qtd_ChannelID : Z;
  qtd_MessageType : string; qtd_Receiver : string; qtd_Content : string;
  qtd_Status : string; qtd_CallbackStatus : string; qtd_RetryCount : Z;
  qtd_MaxRetry : Z; qtd_CreatedAt : string; qtd_UpdatedAt : string
}.

(** The fields tagged [omitempty]: left out when the map has length zero
    or the string is empty. *)
Definition omitempty_map (name : string) (m : gomap) : list (string * value) :=
  if (map_len m =? 0)%nat then [] else [(name, value_of_map m)].

Definition omitempty_string (name s : string) : list (string * value) :=
  if (String.length s =? 0)%nat then [] else [(name, VString s)].

(** A pointer to a request struct as the encoder sees it; [None] is the
    nil pointer. *)
Definition value_of_SendMessageRequest (req : option SendMessageRequest) : value :=
  match req with
  | None => VNil
  | Some r =>
      VStruct ([ ("channel_id", VInt (smr_ChannelID r));
                 ("signature_name", VString (smr_SignatureName r));
                 ("receiver", VString (smr_Receiver r)) ]
               ++ omitempty_map "template_params" (smr_TemplateParams r)
               ++ omitempty_string "scheduled_at" (smr_ScheduledAt r))
  end.

Definition value_of_strings (l : option (list string)) : value :=
  match l with
  | None => VNil
  | Some ss => VSlice (map VString ss)
  end.

Definition value_of_SendBatchRequest (req : option SendBatchRequest) : value :=
  match req with
  | None => VNil
  | Some r =>
      VStruct ([ ("channel_id", VInt (sbr_ChannelID r));
                 ("signature_name", VString (sbr_SignatureName r));
                 ("receivers", value_of_strings (sbr_Receivers r)) ]
               ++ omitempty_map "template_params" (sbr_TemplateParams r)
               ++ omitempty_string "scheduled_at" (sbr_ScheduledAt r))
  end.

(** ** [net/http] *)

Definition http_MethodGet : string := "GET".
Definition http_MethodPost : string := "POST".

(** An outbound [http.Request]: [Body] is [None] for a nil reader; the
    header holds one value per (canonical) name, as [Header.Set] leaves it. *)
Record Request := {
  Method : string;
  URL : string;
  Body : option string;
  Header : gmap string string
}.

Definition Header_Set (req : Request) (key val : string) : Request :=
  {| Method := Method req; URL := URL req; Body := Body req;
     Header := <[key := val]> (Header req) |}.

(** What [httpClient.Do] followed by [io.ReadAll] on the response body
    comes to. *)
Inductive exchange :=
  | DoFails (err : error)
  | ReadFails (err : error)
  | Replies (respBody : string).

(** The target of a [json.Unmarshal] call. *)
Inductive target := TParams | TResponse | TSendMessageData | TSendBatchData | TQueryTaskData.

Definition decoded (t : target) : Type :=
  match t with
  | TParams => gomap
  | TResponse => Response.t
  | TSendMessageData => SendMessageData
  | TSendBatchData => SendBatchData
  | TQueryTaskData => QueryTaskData
  end.

(** ** The dispatcher (client.go) *)

(** Calls that end early with an error: [error + A] with its bind. *)
Definition try {A B} (r : error + A) (wrap : error -> error) (k : A -> error + B)
  : error + B :=
  match r with
  | inl err => inl (wrap err)
  | inr a => k a
  end.

Notation "x <- r 'orelse' w ;; k" := (try r w (fun x => k))
  (at level 100, r at next level, w at next level, right associativity,
   only parsing).

(** The outcome of a public operation: the returned pair, or a run-time
    panic. *)
Inductive outcome (A : Type) :=
  | Returns (data : option A) (err : option error)
  | Panics.
Arguments Returns {A} data err.
Arguments Panics {A}.

Section Dispatcher.

(** The type of a [context.Context]; the program only hands it on. *)
Variable Ctx : Type.

(** The collaborators of one call: the clock, the UUID source, the
    validation done by [http.NewRequestWithContext], and the JSON
    decoder. *)
Record World := {
  time_Now_Unix : Z;
  uuid_New_String : string;
  json_Marshal_error : value -> error;
  json_Unmarshal : forall t : target, string -> error + decoded t;
  http_NewRequest_error : Ctx -> string -> string -> option error
}.

(** [Client]; [httpClient] is the client's [Do] with the read of the
    response body. *)
Record Client := {
  baseURL : string;
  appID : string;
  appSecret : string;
  httpClient : Ctx -> Request -> exchange
}.

Variable w : World.

(** [http.NewRequestWithContext] *)
Definition http_NewRequestWithContext
    (ctx : Ctx) (method url : string) (body : option string) : error + Request :=
  match http_NewRequest_error w ctx method url with
  | Some err => inl err
  | None =>
      inr {| Method := if (String.length method =? 0)%nat then http_MethodGet else method;
             URL := url; Body := body; Header := ∅ |}
  end.

(** The body bytes and the parameter map built from [reqData]
    ([None]: the nil interface). *)
Definition encodeRequest (reqData : option value) : error + (string * gomap) :=
  match reqData with
  | None => inr ("", None)
  | Some v =>
      match json.Marshal v with
      | None => inl (ErrWrap "marshal request data" (json_Marshal_error w v))
      | Some bodyBytes =>
          params <- json_Unmarshal w TParams bodyBytes
                      orelse ErrWrap "unmarshal request data to map" ;;
          inr (bodyBytes, params)
      end
  end.

(** The request that [doRequest] hands to the HTTP client. *)
Definition buildRequest (c : Client) (ctx : Ctx) (method path : string)
    (bodyBytes : string) (params : gomap) : error + Request :=
  let timestamp := FormatInt (time_Now_Unix w) in
  let nonce := uuid_New_String w in
  let signature :=
    generateSignature method path params timestamp nonce (appSecret c) in
  let url := baseURL c +:+ path in
  let body := if (0 <? String.length bodyBytes)%nat then Some bodyBytes else None in
  req <- http_NewRequestWithContext ctx method url body
           orelse ErrWrap "create request" ;;
  let req :=
    if String.eqb method http_MethodPost
    then Header_Set req "Content-Type" "application/json" else req in
  let req := Header_Set req "X-App-Id" (appID c) in
  let req := Header_Set req "X-Timestamp" timestamp in
  let req := Header_Set req "X-Nonce" nonce in
  let req := Header_Set req "X-Signature" signature in
  inr req.

(** The exchange and the decoding of the envelope. *)
Definition roundTrip (c : Client) (ctx : Ctx) (req : Request) : error + Response.t :=
  match httpClient c ctx req with
  | DoFails err => inl (ErrWrap "do request" err)
  | ReadFails err => inl (ErrWrap "read response body" err)
  | Replies respBody =>
      result <- json_Unmarshal w TResponse respBody
                  orelse ErrWrap "unmarshal response" ;;
      inr result
  end.

(** The request that [doRequest] hands to the HTTP client, or the error
    that ended the call before. *)
Definition outbound (c : Client) (ctx : Ctx) (method path : string)
    (reqData : option value) : error + Request :=
  enc <- encodeRequest reqData orelse id ;;
  buildRequest c ctx method path enc.1 enc.2.

(** The decoded envelope [result], or the error that ended the call
    before. *)
Definition exchangeEnvelope (c : Client) (ctx : Ctx) (method path : string)
    (reqData : option value) : error + Response.t :=
  req <- outbound c ctx method path reqData orelse id ;;
  roundTrip c ctx req.

(** [doRequest]: the returned pair of a [Response] pointer and an error. *)
Definition doRequest (c : Client) (ctx : Ctx) (method path : string)
    (reqData : option value) : option Response.t * option error :=
  match exchangeEnvelope c ctx method path reqData with
  | inl err => (None, Some err)
  | inr result =>
      if decide (Response.Code result ≠ 0)
      then (Some result,
            Some (ErrAPI (NewAPIError (Response.Code result) (Response.Message result))))
      else (Some result, None)
  end.

(** The tail shared by the three operations: give up on an error, else
    decode [resp.Data]. *)
Definition decodeData (t : target)
    (r : option Response.t * option error) : outcome (decoded t) :=
  match r with
  | (_, Some err) => Returns None (Some err)
  | (None, None) => Panics
  | (Some resp, None) =>
      match json_Unmarshal w t (Response.Data resp) with
      | inl err => Returns None (Some (ErrWrap "unmarshal response data" err))
      | inr data => Returns (Some data) None
      end
  end.

Definition SendMessage (c : Client) (ctx : Ctx) (req : option SendMessageRequest)
  : outcome SendMessageData :=
  decodeData TSendMessageData
    (doRequest c ctx http_MethodPost "/api/v1/messages"
       (Some (value_of_SendMessageRequest req))).

Definition SendBatch (c : Client) (ctx : Ctx) (req : option SendBatchRequest)
  : outcome SendBatchData :=
  decodeData TSendBatchData
    (doRequest c ctx http_MethodPost "/api/v1/messages/batch"
       (Some (value_of_SendBatchRequest req))).

Definition QueryTask (c : Client) (ctx : Ctx) (taskID : string)
  : outcome QueryTaskData :=
  let path := "/api/v1/messages/" +:+ taskID in
  decodeData TQueryTaskData (doRequest c ctx http_MethodGet path None).

End Dispatcher.

Arguments time_Now_Unix {Ctx} _.
Arguments uuid_New_String {Ctx} _.
Arguments json_Marshal_error {Ctx} _ _.
Arguments json_Unmarshal {Ctx} _ _ _.
Arguments http_NewRequest_error {Ctx} _ _ _ _.
Arguments baseURL {Ctx} _.
Arguments appID {Ctx} _.
Arguments appSecret {Ctx} _.
Arguments httpClient {Ctx} _ _ _.
Arguments http_NewRequestWithContext {Ctx} w ctx method url body.
Arguments encodeRequest {Ctx} w reqData.
Arguments buildRequest {Ctx} w c ctx method path bodyBytes params.
Arguments roundTrip {Ctx} w c ctx req.
Arguments outbound {Ctx} w c ctx method path reqData.
Arguments exchangeEnvelope {Ctx} w c ctx method path reqData.
Arguments doRequest {Ctx} w c ctx method path reqData.
Arguments decodeData {Ctx} w t r.
Arguments SendMessage {Ctx} w c ctx req.
Arguments SendBatch {Ctx} w c ctx req.
Arguments QueryTask {Ctx} w c ctx taskID.

(** ** Properties of an outbound request *)


(** A request body is present (the reader is not nil); it is then the
    whole of the serialized payload. *)
Definition has_body (req : Request) : Prop := is_Some (Body req).



(** ** A concrete world

    One call against a server that answers every request with the
    envelope of a rejected signature.  The decoder is given on the two
    texts it meets: the request body of [req] and the server's answer. *)
Module Scenario.

Definition req : SendMessageRequest :=
  {| smr_ChannelID := 1; smr_SignatureName := ""; smr_Receiver := "13800138000";
     smr_TemplateParams := None; smr_ScheduledAt := "" |}.

Definition body : string :=
  dq "{'channel_id':1,'signature_name':'','receiver':'13800138000'}".

(** The body decoded into a generic map: the number is a [float64]. *)
Definition params : gomap :=
  Some [ ("channel_id", VOther (Some "1"));
         ("signature_name", VString "");
         ("receiver", VString "13800138000") ].

Definition answer : string := dq "{'code':20003,'message':'signature invalid'}".

Definition envelope : Response.t :=
  {| Response.Code := 20003; Response.Message := "signature invalid";
     Response.Data := "" |}.

Definition syntax_error : error := ErrLib "unexpected end of JSON input".

Definition unmarshal (t : target) (text : string) : error + decoded t :=
  match t with
  | TParams =>
      if String.eqb text body then inr params
      else if String.eqb text "null" then inr None
      else inl syntax_error
  | TResponse =>
      if String.eqb text answer then inr envelope else inl syntax_error
  | _ => inl syntax_error
  end.

Definition world : World unit :=
  {| time_Now_Unix := 1700000000;
     uuid_New_String := "6ba7b810-9dad-41d1-80b4-00c04fd430c8";
     json_Marshal_error := fun _ => ErrLib "json: unsupported type";
     json_Unmarshal := unmarshal;
     http_NewRequest_error := fun _ _ _ => None |}.

Definition client : Client unit :=
  {| baseURL := "http://127.0.0.1:8080"; appID := "test_app_id";
     appSecret := "test_secret";
     httpClient := fun _ _ => Replies answer |}.


End Scenario.

(** ** Construction of a client (client.go: [NewClient] and its options)

    The options work through pointers: [WithTimeout] writes into the
    [http.Client] object that the [Client] points to, which may be an
    object of the caller.  The [http.Client] objects therefore live in a
    store, by address. *)
Module construct.

(** An [http.Client] object: its [Timeout] (a [time.Duration], in
    nanoseconds) and, as one value, the fields this package never reads or
    writes ([Transport], [CheckRedirect], [Jar]). *)
Record http_Client := { Timeout : Z; others : nat }.

Definition time_Second : Z := 1000000000.

(** The [Client] struct; [httpClient] is a pointer, [None] the nil
    pointer. *)
Record Client := {
  baseURL : string;
  appID : string;
  appSecret : string;
  httpClient : option nat
}.

(** A [ClientOption], called on a pointer to the [Client] under
    construction: it leaves a [Client] and a store, or panics ([None]). *)
Definition ClientOption : Type :=
  Client → gmap nat http_Client → option (Client * gmap nat http_Client).

(** [WithHTTPClient]: [c.httpClient = client] *)
Definition WithHTTPClient (client : option nat) : ClientOption :=
  fun c h =>
    Some ({| baseURL := baseURL c; appID := appID c; appSecret := appSecret c;
             httpClient := client |}, h).

(** [WithTimeout]: [c.httpClient.Timeout = timeout], a write through the
    pointer; a nil pointer makes it panic. *)
Definition WithTimeout (timeout : Z) : ClientOption :=
  fun c h =>
    p ← httpClient c;
    hc ← h !! p;
    Some (c, <[p := {| Timeout := timeout; others := others hc |}]> h).

(** [for _, opt := range opts { opt(c) }] *)
Fixpoint apply_options (opts : list ClientOption) (c : Client)
    (h : gmap nat http_Client) : option (Client * gmap nat http_Client) :=
  match opts with
  | [] => Some (c, h)
  | opt :: rest =>
      match opt c h with
      | Some (c', h') => apply_options rest c' h'
      | None => None
      end
  end.

(** [NewClient]: a new [http.Client] with a timeout of ten seconds is
    allocated, then the options run in order. *)
Definition NewClient (baseURL appID appSecret : string) (opts : list ClientOption)
    (h : gmap nat http_Client) : option (Client * gmap nat http_Client) :=
  let p := fresh (dom h) in
  let c := {| baseURL := baseURL; appID := appID; appSecret := appSecret;
              httpClient := Some p |} in
  apply_options opts c (<[p := {| Timeout := 10 * time_Second; others := 0 |}]> h).

(** The two options that the package provides. *)
Inductive provided : ClientOption → Prop :=
  | provided_WithHTTPClient client : provided (WithHTTPClient client)
  | provided_WithTimeout timeout : provided (WithTimeout timeout).

End construct.

(** ** Further notions used to state properties of the code *)

(** The codes that have an entry in [ErrorCodeMessages], by group:
    request (1xxxx), authentication (2xxxx), business (3xxxx) and system
    (4xxxx) errors. *)
Definition known_code (code : Z) : Prop :=
  (10001 ≤ code ≤ 10006 ∨ 20001 ≤ code ≤ 20006 ∨
   30001 ≤ code ≤ 30008 ∨ 40001 ≤ code ≤ 40007)%Z.

(** [strings.IndexByte(s, c) >= 0] *)
Fixpoint has_char (c : ascii) (s : string) : bool :=
  match s with
  | "" => false
  | String c' t => Ascii.eqb c' c || has_char c t
  end.

(** No byte of [s] is one of the three that [json.Marshal] escapes for
    HTML. *)
Definition html_free (s : string) : Prop :=
  has_char "<" s = false ∧ has_char ">" s = false ∧ has_char "&" s = false.

Definition html_free_char (c : ascii) : bool :=
  negb (Ascii.eqb c "<" || Ascii.eqb c ">" || Ascii.eqb c "&").

(** The first [n] bytes of [s], as far as it goes, are not ASCII. *)
Fixpoint high_prefix (n : nat) (s : string) : Prop :=
  match n, s with
  | S n', String c t => (N_of_ascii c <? 0x80)%N = false ∧ high_prefix n' t
  | _, _ => True
  end.

(** A value built without [VOther]: nil, booleans, integers, strings,
    and slices, maps and structs of such values. *)
Fixpoint plain (v : value) : Prop :=
  match v with
  | VNil | VBool _ | VInt _ | VString _ => True
  | VSlice vs => foldr (fun x P => plain x ∧ P) True vs
  | VMap kvs => foldr (fun kv P => plain kv.2 ∧ P) True kvs
  | VStruct fields => foldr (fun kv P => plain kv.2 ∧ P) True fields
  | VOther _ => False
  end.

(** Every map inside the value has pairwise distinct keys. *)
Fixpoint distinct_keys (v : value) : Prop :=
  match v with
  | VSlice vs => foldr (fun x P => distinct_keys x ∧ P) True vs
  | VMap kvs => NoDup kvs.*1 ∧ foldr (fun kv P => distinct_keys kv.2 ∧ P) True kvs
  | VStruct fields => foldr (fun kv P => distinct_keys kv.2 ∧ P) True fields
  | _ => True
  end.

(** The same Go value met with other iteration orders of its maps, at any
    depth. *)
Inductive same_value : value → value → Prop :=
  | same_refl v : same_value v v
  | same_slice vs1 vs2 :
      Forall2 same_value vs1 vs2 → same_value (VSlice vs1) (VSlice vs2)
  | same_map kvs1 mid kvs2 :
      Forall2 (fun a b => a.1 = b.1 ∧ same_value a.2 b.2) kvs1 mid →
      mid ≡ₚ kvs2 → same_value (VMap kvs1) (VMap kvs2)
  | same_struct fs1 fs2 :
      Forall2 (fun a b => a.1 = b.1 ∧ same_value a.2 b.2) fs1 fs2 →
      same_value (VStruct fs1) (VStruct fs2).

Section value_induction.

Variable P : value → Prop.
Hypothesis Hnil : P VNil.
Hypothesis Hbool : ∀ b, P (VBool b).
Hypothesis Hint : ∀ n, P (VInt n).
Hypothesis Hstring : ∀ s, P (VString s).
Hypothesis Hslice : ∀ vs, Forall P vs → P (VSlice vs).
Hypothesis Hmap : ∀ kvs, Forall (fun kv => P kv.2) kvs → P (VMap kvs).
Hypothesis Hstruct : ∀ fields, Forall (fun kv => P kv.2) fields → P (VStruct fields).
Hypothesis Hother : ∀ enc, P (VOther enc).

Fixpoint value_nested_ind (v : value) : P v :=
  match v with
  | VNil => Hnil
  | VBool b => Hbool b
  | VInt n => Hint n
  | VString s => Hstring s
  | VSlice vs =>
      Hslice vs ((fix go (l : list value) : Forall P l :=
                    match l with
                    | [] => Forall_nil_2 P
                    | x :: r => Forall_cons_2 P x r (value_nested_ind x) (go r)
                    end) vs)
  | VMap kvs =>
      Hmap kvs ((fix go (l : list (string * value)) : Forall (fun kv => P kv.2) l :=
                   match l with
                   | [] => Forall_nil_2 _
                   | kv :: r =>
                       Forall_cons_2 (fun kv => P kv.2) kv r
                         (value_nested_ind kv.2) (go r)
                   end) kvs)
  | VStruct fields =>
      Hstruct fields
        ((fix go (l : list (string * value)) : Forall (fun kv => P kv.2) l :=
            match l with
            | [] => Forall_nil_2 _
            | kv :: r =>
                Forall_cons_2 (fun kv => P kv.2) kv r
                  (value_nested_ind kv.2) (go r)
            end) fields)
  | VOther enc => Hother enc
  end.

End value_induction.

(** One member of a JSON object, and the members after the first. *)
Definition member (name text : string) : string :=
  json.appendString name +:+ ":" +:+ text.

Definition next_member (name text : string) : string := "," +:+ member name text.

(** The two optional members shared by both payloads. *)
Definition optional_members (templateParams : gomap) (scheduledAt : string)
  : option string :=
  tp ← (if (map_len templateParams =? 0)%nat then Some ""
        else e ← json.encode (value_of_map templateParams);
             Some (next_member "template_params" e));
  Some (tp +:+ (if (String.length scheduledAt =? 0)%nat then ""
                else next_member "scheduled_at" (json.appendString scheduledAt))).

Definition SendMessageRequest_text (r : SendMessageRequest) : option string :=
  opt ← optional_members (smr_TemplateParams r) (smr_ScheduledAt r);
  Some ("{" +:+ member "channel_id" (FormatInt (smr_ChannelID r))
        +:+ next_member "signature_name" (json.appendString (smr_SignatureName r))
        +:+ next_member "receiver" (json.appendString (smr_Receiver r))
        +:+ opt +:+ "}").

Definition receivers_text (l : option (list string)) : string :=
  match l with
  | None => "null"
  | Some ss => "[" +:+ String.concat "," (map json.appendString ss) +:+ "]"
  end.

Definition SendBatchRequest_text (r : SendBatchRequest) : option string :=
  opt ← optional_members (sbr_TemplateParams r) (sbr_ScheduledAt r);
  Some ("{" +:+ member "channel_id" (FormatInt (sbr_ChannelID r))
        +:+ next_member "signature_name" (json.appendString (sbr_SignatureName r))
        +:+ next_member "receivers" (receivers_text (sbr_Receivers r))
        +:+ opt +:+ "}").


(** * Part II: properties *)

(** ** The order on keys *)

Lemma compare_refl (s : string) : String.compare s s = Eq.
Proof.
  induction s as [|c s IH]; simpl; [done|].
  unfold Ascii.compare. by rewrite N.compare_refl.
Qed.

Lemma compare_Lt_trans (s1 s2 s3 : string) :
  String.compare s1 s2 = Lt → String.compare s2 s3 = Lt → String.compare s1 s3 = Lt.
Proof.
  revert s2 s3.
  induction s1 as [|c1 s1 IH]; intros [|c2 s2] [|c3 s3]; simpl; try congruence.
  unfold Ascii.compare.
  destruct (N.compare_spec (N_of_ascii c1) (N_of_ascii c2)) as [E12|L12|G12];
    destruct (N.compare_spec (N_of_ascii c2) (N_of_ascii c3)) as [E23|L23|G23];
    try congruence; intros H12 H23.
  - rewrite E12, E23, N.compare_refl. eauto.
  - rewrite E12. apply N.compare_lt_iff in L23. by rewrite L23.
  - rewrite <- E23. apply N.compare_lt_iff in L12. by rewrite L12.
  - assert (N_of_ascii c1 < N_of_ascii c3)%N as L by lia.
    apply N.compare_lt_iff in L. by rewrite L.
Qed.

Lemma str_le_lt_eq (s1 s2 : string) : str_le s1 s2 ↔ str_lt s1 s2 ∨ s1 = s2.
Proof.
  unfold str_lt, str_le, String.ltb, String.leb.
  destruct (String.compare s1 s2) eqn:E.
  - apply String.compare_eq_iff in E. naive_solver.
  - naive_solver.
  - split; [done|]. intros [?| ->]; [done|].
    rewrite compare_refl in E. congruence.
Qed.

Lemma str_lt_irrefl (s : string) : ¬ str_lt s s.
Proof. unfold str_lt, String.ltb. by rewrite compare_refl. Qed.

#[global] Instance str_lt_trans : Transitive str_lt.
Proof.
  intros s1 s2 s3. unfold str_lt, String.ltb.
  destruct (String.compare s1 s2) eqn:E12; try done.
  destruct (String.compare s2 s3) eqn:E23; try done.
  by rewrite (compare_Lt_trans _ _ _ E12 E23).
Qed.

#[global] Instance str_le_trans : Transitive str_le.
Proof.
  intros s1 s2 s3. rewrite !str_le_lt_eq.
  intros [H12| ->] [H23| ->]; eauto. left. by trans s2.
Qed.

#[global] Instance str_le_total : Total str_le.
Proof. intros s1 s2. apply String.leb_total. Qed.

#[global] Instance str_le_antisym : AntiSymm (=) str_le.
Proof. intros s1 s2. apply String.leb_antisym. Qed.

#[global] Instance entry_le_trans {A} : Transitive (@json.entry_le A).
Proof. intros x y z. unfold json.entry_le. apply str_le_trans. Qed.

#[global] Instance entry_le_total {A} : Total (@json.entry_le A).
Proof. intros x y. unfold json.entry_le. apply str_le_total. Qed.


(** ** UTF-8 and the order of code points *)




Lemma div_large (r d k : N) : (d ≠ 0)%N → (d * k ≤ r)%N → (k ≤ r / d)%N.
Proof. intros Hd H. apply N.div_le_lower_bound; [done|lia]. Qed.
















Example runes_of_text :
  string_of_runes [0x672A; 0x77E5; 0x9519; 0x8BEF]%N = "未知错误".
Proof. reflexivity. Qed.

(** ** Maps as entry lists *)

Lemma assoc_elem_of (k : string) (v : value) (kvs : list (string * value)) :
  NoDup kvs.*1 → (k, v) ∈ kvs → assoc k kvs = Some v.
Proof.
  induction kvs as [|[k' v'] kvs IH]; simpl; intros Hnd Hin.
  - by apply elem_of_nil in Hin.
  - apply NoDup_cons in Hnd as [Hk' Hnd].
    apply elem_of_cons in Hin as [Heq|Hin].
    + inversion Heq; subst. by rewrite decide_True.
    + rewrite decide_False; [by apply IH|].
      intros ->. apply Hk'. apply list_elem_of_fmap. by exists (k, v).
Qed.

(** Two entries of a map with the same key are the same entry. *)
Lemma entry_unique {A} (l : list (string * A)) (x y : string * A) :
  NoDup l.*1 → x ∈ l → y ∈ l → x.1 = y.1 → x = y.
Proof.
  induction l as [|z l IH]; simpl; intros Hnd Hx Hy Hk.
  - by apply elem_of_nil in Hx.
  - apply NoDup_cons in Hnd as [Hz Hnd].
    apply elem_of_cons in Hx as [->|Hx]; apply elem_of_cons in Hy as [->|Hy];
      [done| | |by apply IH].
    + destruct Hz. rewrite Hk. by apply list_elem_of_fmap_2.
    + destruct Hz. rewrite <- Hk. by apply list_elem_of_fmap_2.
Qed.

(** Reading every key of a map back gives the map. *)
Lemma map_index_range (kvs : list (string * value)) :
  NoDup kvs.*1 →
  map (fun k => (k, map_index (Some kvs) k)) kvs.*1 = kvs.
Proof.
  intros Hnd. unfold map_index.
  assert (∀ l, l ⊆ kvs →
    map (fun k => (k, default VNil (assoc k kvs))) l.*1 = l) as H.
  { induction l as [|[k v] l IH]; intros Hsub; [done|]. simpl.
    rewrite (assoc_elem_of k v kvs Hnd); [|apply Hsub; by left].
    simpl. f_equal. apply IH. intros x Hx. apply Hsub. by right. }
  by apply H.
Qed.

Lemma map_assign_fresh (kvs : list (string * value)) (k : string) (v : value) :
  k ∉ kvs.*1 → map_assign kvs k v = kvs ++ [(k, v)].
Proof.
  induction kvs as [|[k' v'] kvs IH]; simpl; intros Hk; [done|].
  apply not_elem_of_cons in Hk as [Hne Hk].
  rewrite decide_False by done. by rewrite IH.
Qed.

(** Filling a map key by key, the keys pairwise distinct and new to it. *)
Lemma foldl_map_assign (f : string → value) (keys : list string)
    (acc : list (string * value)) :
  NoDup keys → (∀ k, k ∈ keys → k ∉ acc.*1) →
  foldl (fun m k => map_assign m k (f k)) acc keys
  = acc ++ map (fun k => (k, f k)) keys.
Proof.
  revert acc. induction keys as [|k keys IH]; intros acc Hnd Hfresh; simpl.
  - by rewrite app_nil_r.
  - apply NoDup_cons in Hnd as [Hk Hnd].
    rewrite map_assign_fresh by (apply Hfresh; by left).
    rewrite IH; [by rewrite <- app_assoc|done|].
    intros k' Hk'. rewrite fmap_app. simpl.
    intros Hin. apply elem_of_app in Hin as [Hin|Hin].
    + by apply (Hfresh k'); [right|].
    + apply list_elem_of_singleton in Hin. by subst.
Qed.

(** ** Sorting entries by key *)

Lemma encoded_keys (kvs : list (string * value)) : (encoded kvs).*1 = kvs.*1.
Proof. induction kvs as [|[k v] kvs IH]; [done|]. simpl. f_equal. exact IH. Qed.

Lemma encoded_Permutation (l1 l2 : list (string * value)) :
  l1 ≡ₚ l2 → encoded l1 ≡ₚ encoded l2.
Proof. intros H. unfold encoded. by apply Permutation_map. Qed.

(** The sorted arrangement of a map's entries does not depend on the
    order they are met in. *)
Lemma sorted_entries_unique {A} (l1 l2 : list (string * A)) :
  NoDup l1.*1 → l1 ≡ₚ l2 →
  merge_sort json.entry_le l1 = merge_sort json.entry_le l2.
Proof.
  intros Hnd Hp.
  apply (Sorted_unique_strong json.entry_le).
  - intros x y Hx Hy Hxy Hyx.
    apply (entry_unique l1); [done| | |].
    + by rewrite <- (merge_sort_Permutation json.entry_le l1).
    + rewrite Hp. by rewrite <- (merge_sort_Permutation json.entry_le l2).
    + by apply (anti_symm str_le).
  - apply Sorted_merge_sort, _.
  - apply Sorted_merge_sort, _.
  - by rewrite !merge_sort_Permutation.
Qed.



(** The map encoder does not depend on the iteration order of the map. *)
Lemma encode_VMap_Permutation (l1 l2 : list (string * value)) :
  NoDup l1.*1 → l1 ≡ₚ l2 → json.encode (VMap l1) = json.encode (VMap l2).
Proof.
  intros Hnd Hp. simpl. fold (encoded l1). fold (encoded l2).
  unfold json.encodeMap. f_equal.
  apply sorted_entries_unique; [by rewrite encoded_keys|].
  by apply encoded_Permutation.
Qed.

(** ** The rebuilt map of [sortParams] *)

Lemma rebuilt_Permutation (kvs : list (string * value)) :
  NoDup kvs.*1 → rebuilt kvs ≡ₚ kvs.
Proof.
  intros Hnd. unfold rebuilt, sort_Strings.
  rewrite foldl_map_assign.
  - rewrite app_nil_l.
    trans (map (fun k => (k, map_index (Some kvs) k)) kvs.*1).
    + apply Permutation_map, merge_sort_Permutation.
    + by rewrite map_index_range.
  - by rewrite merge_sort_Permutation.
  - intros k _. apply not_elem_of_nil.
Qed.

Lemma sortParams_unfold (kvs : list (string * value)) :
  kvs ≠ [] →
  sortParams (Some kvs) = string_of_result (json.Marshal (VMap (rebuilt kvs))).
Proof. intros Hne. unfold sortParams. simpl. by destruct kvs. Qed.

(** ** Canonicalization *)

Lemma sortParams_marshal (kvs : list (string * value)) :
  kvs ≠ [] → NoDup kvs.*1 →
  sortParams (Some kvs) = string_of_result (json.encodeMap (encoded kvs)).
Proof.
  intros Hne Hnd. rewrite sortParams_unfold by done.
  unfold json.Marshal.
  rewrite (encode_VMap_Permutation (rebuilt kvs) kvs).
  - done.
  - by rewrite (rebuilt_Permutation kvs Hnd).
  - by apply rebuilt_Permutation.
Qed.

Lemma sortParams_Permutation (kvs1 kvs2 : list (string * value)) :
  NoDup kvs1.*1 → kvs1 ≡ₚ kvs2 → sortParams (Some kvs1) = sortParams (Some kvs2).
Proof.
  intros Hnd Hp. destruct kvs1 as [|x kvs1].
  - apply Permutation_nil in Hp. by subst.
  - assert (kvs2 ≠ []) as Hne2.
    { intros ->. by apply Permutation_nil_r in Hp. }
    rewrite !sortParams_marshal; [|done|by rewrite <- Hp|done..].
    f_equal. unfold json.encodeMap. f_equal.
    apply sorted_entries_unique; [by rewrite encoded_keys|].
    by apply encoded_Permutation.
Qed.

(** C2. A parameter map that is empty or nil has the empty string as its
    canonical form, which is neither the text of an empty JSON object nor
    [null]. *)
Theorem sortParams_empty (params : gomap) :
  map_len params = 0%nat →
  sortParams params = "" ∧ sortParams params ≠ "{}" ∧ sortParams params ≠ "null".
Proof.
  intros Hlen. unfold sortParams. rewrite Hlen. simpl. by repeat split.
Qed.

Lemma sortParams_empty_witness :
  map_len None = 0%nat ∧
  sortParams None = "" ∧ sortParams None ≠ "{}" ∧ sortParams None ≠ "null".
Proof. split; [reflexivity | apply (sortParams_empty None); reflexivity]. Defined.

(** The encoder alone gives other texts for these two maps. *)
Example marshal_nil_map : marshalParams None = "null".
Proof. reflexivity. Qed.

Example marshal_empty_map : marshalParams (Some []) = "{}".
Proof. reflexivity. Qed.

Example empty_map_canonical : sortParams (Some []) = "".
Proof. reflexivity. Qed.



(** C7. The two canonicalization vectors: the one-entry map, and the
    three-entry map met in any iteration order. *)
Theorem sortParams_vectors (kvs : list (string * value)) :
  kvs ≡ₚ example_params →
  sortParams (Some [("key", VString "value")]) = dq "{'key':'value'}" ∧
  sortParams (Some kvs)
  = dq "{'channel_id':1,'receiver':'13800138000','template_params':{'code':'123456'}}".
Proof.
  intros Hp. split; [by vm_compute|].
  rewrite <- (sortParams_Permutation example_params kvs).
  - by vm_compute.
  - compute_done.
  - done.
Qed.

Lemma sortParams_vectors_witness :
  reverse example_params ≡ₚ example_params ∧
  sortParams (Some [("key", VString "value")]) = dq "{'key':'value'}" ∧
  sortParams (Some (reverse example_params))
  = dq "{'channel_id':1,'receiver':'13800138000','template_params':{'code':'123456'}}".
Proof.
  split; [apply reverse_Permutation|].
  apply (sortParams_vectors (reverse example_params)), reverse_Permutation.
Defined.

(** The six iteration orders of the three-entry map, one by one. *)
Example example_params_all_orders :
  Forall (fun kvs =>
    sortParams (Some kvs)
    = dq "{'channel_id':1,'receiver':'13800138000','template_params':{'code':'123456'}}")
    (permutations example_params).
Proof. repeat constructor. Qed.

(** C10. For a non-empty map the sort-and-rebuild step changes nothing:
    the encoder gives the same outcome for the rebuilt map and for the
    original one, so [sortParams] agrees with handing the original map to
    [json.Marshal]. *)
Theorem sortParams_rebuild_redundant (kvs : list (string * value)) :
  kvs ≠ [] → NoDup kvs.*1 →
  json.Marshal (VMap (rebuilt kvs)) = json.Marshal (VMap kvs) ∧
  sortParams (Some kvs) = marshalParams (Some kvs).
Proof.
  intros Hne Hnd.
  assert (json.Marshal (VMap (rebuilt kvs)) = json.Marshal (VMap kvs)) as H.
  { apply encode_VMap_Permutation.
    - by rewrite (rebuilt_Permutation kvs Hnd).
    - by apply rebuilt_Permutation. }
  split; [done|].
  rewrite sortParams_unfold by done. unfold marshalParams. simpl value_of_map.
  by rewrite H.
Qed.

Lemma sortParams_rebuild_redundant_witness :
  example_params ≠ [] ∧ NoDup (example_params).*1 ∧
  json.Marshal (VMap (rebuilt example_params)) = json.Marshal (VMap example_params) ∧
  sortParams (Some example_params) = marshalParams (Some example_params).
Proof.
  assert (example_params ≠ []) as Hne by discriminate.
  assert (NoDup (example_params).*1) as Hnd by compute_done.
  split; [exact Hne|]. split; [exact Hnd|].
  exact (sortParams_rebuild_redundant example_params Hne Hnd).
Defined.

(** ** Bytes, digests and hexadecimal text *)

Lemma bytes_of_string_app (s1 s2 : string) :
  bytes_of_string (s1 +:+ s2) = bytes_of_string s1 ++ bytes_of_string s2.
Proof.
  unfold bytes_of_string. induction s1 as [|c s1 IH]; simpl; [done|].
  by rewrite IH.
Qed.

Lemma land_0xFF_is_byte (x : Z) : is_byte (Z.land x 0xFF).
Proof.
  change 0xFF with (Z.ones 8). rewrite Z.land_ones by lia.
  unfold is_byte. change (2 ^ 8) with 256. apply Z.mod_pos_bound. lia.
Qed.

Lemma putUint32_bytes (x : Z) : Forall is_byte (sha256.putUint32 x).
Proof. unfold sha256.putUint32. repeat constructor; apply land_0xFF_is_byte. Qed.

Lemma checkSum_length (msg : list Z) :
  length (sha256.checkSum msg) = sha256.Size.
Proof. unfold sha256.checkSum. by rewrite !length_app. Qed.

Lemma checkSum_bytes (msg : list Z) : Forall is_byte (sha256.checkSum msg).
Proof.
  unfold sha256.checkSum. rewrite !Forall_app.
  repeat split; apply putUint32_bytes.
Qed.

(** The key block of [hmac.New] is the specification's [K0]. *)
Lemma copy_key_short (key : list Z) :
  (length key ≤ 64)%nat →
  hmac.copy_key 64 key = key ++ repeat 0 (64 - length key)%nat.
Proof. intros H. unfold hmac.copy_key. by rewrite take_ge. Qed.

(** The [hash.Hash] calls of [generateSignature] compute RFC 2104's HMAC. *)
Lemma hmac_Sum_spec (key text : list Z) :
  hmac.Sum (hmac.Write (hmac.New key) text) [] = HMAC_SHA256 key text.
Proof.
  unfold hmac.New, HMAC_SHA256.
  change sha256.BlockSize with 64%nat.
  destruct (64 <? length key)%nat eqn:Hlen;
    unfold hmac.Sum, hmac.Write, sha256.Sum, sha256.Write, sha256.Reset,
      sha256.New;
    cbn [hmac.opad hmac.ipad hmac.inner hmac.outer sha256.written
         app length take drop].
  - rewrite copy_key_short by (rewrite checkSum_length; unfold sha256.Size; lia).
    done.
  - apply Nat.ltb_ge in Hlen. by rewrite copy_key_short.
Qed.

Lemma HMAC_SHA256_length (key text : list Z) :
  length (HMAC_SHA256 key text) = 32%nat.
Proof. unfold HMAC_SHA256. apply checkSum_length. Qed.

Lemma HMAC_SHA256_bytes (key text : list Z) :
  Forall is_byte (HMAC_SHA256 key text).
Proof. unfold HMAC_SHA256. apply checkSum_bytes. Qed.

(** On bytes, the shifts and masks of [hex.EncodeToString] pick the two
    hexadecimal digits. *)
Lemma EncodeToString_hex_lower (bs : list Z) :
  Forall is_byte bs → hex.EncodeToString bs = hex_lower bs.
Proof.
  unfold hex_lower. induction 1 as [|b bs Hb Hbs IH]; simpl; [done|].
  rewrite IH. rewrite Z.shiftr_div_pow2 by lia.
  change 0x0f with (Z.ones 4). rewrite Z.land_ones by lia. done.
Qed.

Lemma hexdigit_lower_hex (i : nat) : (i < 16)%nat → is_lower_hex (hexdigit i) = true.
Proof.
  intros Hi. do 16 (destruct i as [|i]; [reflexivity|]). lia.
Qed.

Lemma hex_lower_length (bs : list Z) :
  String.length (hex_lower bs) = (2 * length bs)%nat.
Proof.
  unfold hex_lower. induction bs as [|b bs IH]; simpl; [done|].
  rewrite IH. lia.
Qed.

Lemma hex_lower_digits (bs : list Z) :
  Forall is_byte bs →
  Forall (fun c => is_lower_hex c = true) (list_ascii_of_string (hex_lower bs)).
Proof.
  unfold hex_lower. rewrite list_ascii_of_string_of_list_ascii.
  induction 1 as [|b bs Hb Hbs IH]; simpl; [constructor|].
  unfold is_byte in Hb.
  constructor; [|constructor; [|done]]; apply hexdigit_lower_hex.
  - assert (b / 16 < 16)%Z by (apply Z.div_lt_upper_bound; lia).
    assert (0 ≤ b / 16)%Z by (apply Z.div_pos; lia). lia.
  - pose proof (Z.mod_pos_bound b 16). lia.
Qed.

(** ** The signature *)

Lemma generateSignature_spec
    (method path : string) (params : gomap) (timestamp nonce secret : string) :
  generateSignature method path params timestamp nonce secret
  = computeSignature method path params timestamp nonce secret.
Proof.
  unfold generateSignature, computeSignature.
  rewrite hmac_Sum_spec, !bytes_of_string_app.
  apply EncodeToString_hex_lower, HMAC_SHA256_bytes.
Qed.


(** C6. The signature has exactly 64 characters, each of them a
    lowercase hexadecimal digit. *)
Theorem generateSignature_format
    (method path : string) (params : gomap) (timestamp nonce secret : string) :
  let sig := generateSignature method path params timestamp nonce secret in
  String.length sig = 64%nat ∧
  Forall (fun c => is_lower_hex c = true) (list_ascii_of_string sig).
Proof.
  cbv zeta. rewrite generateSignature_spec. unfold computeSignature. split.
  - by rewrite hex_lower_length, HMAC_SHA256_length.
  - apply hex_lower_digits, HMAC_SHA256_bytes.
Qed.

(** The derived constants against the tables of the Go source. *)
Example sha256_K_ends :
  length sha256._K = 64%nat ∧ sha256._K !! 0%nat = Some 0x428a2f98 ∧
  sha256._K !! 1%nat = Some 0x71374491 ∧ sha256._K !! 63%nat = Some 0xc67178f2.
Proof. by vm_compute. Qed.

Example sha256_init :
  sha256.init = sha256.Regs 0x6a09e667 0xbb67ae85 0x3c6ef372 0xa54ff53a
                            0x510e527f 0x9b05688c 0x1f83d9ab 0x5be0cd19.
Proof. reflexivity. Qed.

(** Known answers: FIPS 180-4 and RFC 4231 vectors, and the signature of
    the package's own test inputs. *)
Example sha256_abc :
  hex.EncodeToString (sha256.checkSum (bytes_of_string "abc"))
  = "ba7816bf8f01cfea414140de5dae2223b00361a396177a9cb410ff61f20015ad".
Proof. by vm_compute. Qed.

Example sha256_two_blocks :
  hex.EncodeToString (sha256.checkSum (bytes_of_string
    "abcdbcdecdefdefgefghfghighijhijkijkljklmklmnlmnomnopnopq"))
  = "248d6a61d20638b8e5c026930c3e6039a33ce45964ff2167f6ecedd419db06c1".
Proof. by vm_compute. Qed.

Example hmac_rfc4231_case2 :
  hex_lower (HMAC_SHA256 (bytes_of_string "Jefe")
               (bytes_of_string "what do ya want for nothing?"))
  = "5bdcc146bf60754e6a042426089575c75a003f089d2739839dec58b964ec3843".
Proof. by vm_compute. Qed.

Example hmac_rfc4231_case6 :
  hex.EncodeToString
    (hmac.Sum (hmac.Write (hmac.New (repeat 0xaa 131%nat))
       (bytes_of_string "Test Using Larger Than Block-Size Key - Hash Key First")) [])
  = "60e431591ee0b67f0d8a26aacbf5b77f8e0bc6213728c5140546040f0ee37f54".
Proof. by vm_compute. Qed.

Example generateSignature_test_inputs :
  generateSignature "POST" "/api/v1/messages" (Some example_params)
    "1700000000" "abc123" "secret123456"
  = "7a1afc75536cb239791d1e5849d82c07893cb05712fe7b71de251ca2fa7bfce5".
Proof. by vm_compute. Qed.

(** ** The error-code table *)

Lemma ErrorCodeMessages_lookup (code : Z) (msg : string) :
  ErrorCodeMessages !! code = Some msg ↔ (code, msg) ∈ ErrorCodeMessages_literal.
Proof.
  unfold ErrorCodeMessages. symmetry. apply elem_of_list_to_map. compute_done.
Qed.

(** C9. [GetErrorMessage] returns the table's message for a code that is
    a key of the table and the unknown-error text for every other code;
    being a lookup with a default, it has a value at every integer. *)
Theorem GetErrorMessage_table (code : Z) :
  GetErrorMessage code = default "未知错误" (ErrorCodeMessages !! code) ∧
  (∀ msg, (code, msg) ∈ ErrorCodeMessages_literal → GetErrorMessage code = msg) ∧
  (code ∉ ErrorCodeMessages_literal.*1 → GetErrorMessage code = "未知错误").
Proof.
  unfold GetErrorMessage. split; [|split].
  - by destruct (ErrorCodeMessages !! code).
  - intros msg Hin. apply ErrorCodeMessages_lookup in Hin. by rewrite Hin.
  - intros Hnot. destruct (ErrorCodeMessages !! code) as [msg|] eqn:E; [|done].
    apply ErrorCodeMessages_lookup in E. destruct Hnot.
    apply list_elem_of_fmap. by exists (code, msg).
Qed.

Example GetErrorMessage_20003 : GetErrorMessage ErrCodeInvalidSignature = "签名验证失败".
Proof. by vm_compute. Qed.

Example GetErrorMessage_40007 : GetErrorMessage 40007 = "熔断器打开".
Proof. by vm_compute. Qed.

Example GetErrorMessage_0 : GetErrorMessage 0 = "未知错误".
Proof. by vm_compute. Qed.

Example GetErrorMessage_negative : GetErrorMessage (-10001) = "未知错误".
Proof. by vm_compute. Qed.

(** ** The dispatcher *)

Section DispatcherProperties.

Context {Ctx : Type} (w : World Ctx).

Lemma IsAPIError_iff (err : option error) :
  IsAPIError err = true ↔ ∃ e : APIError, err = Some (ErrAPI e).
Proof.
  split.
  - destruct err as [[e| |]|]; try done. by exists e.
  - by intros [e ->].
Qed.

Lemma IsAPIError_wrapped (msg : string) (cause : error) :
  IsAPIError (Some (ErrWrap msg cause)) = false.
Proof. done. Qed.

(** *** Errors that end a call before an envelope is decoded *)

Lemma encodeRequest_error (reqData : option value) (e : error) :
  encodeRequest w reqData = inl e → ∃ msg cause, e = ErrWrap msg cause.
Proof.
  unfold encodeRequest, try. intros H.
  destruct reqData as [v|]; [|done].
  destruct (json.Marshal v); [|naive_solver].
  destruct (json_Unmarshal w TParams s); naive_solver.
Qed.

Lemma buildRequest_error (c : Client Ctx) (ctx : Ctx) (method path bodyBytes : string)
    (params : gomap) (e : error) :
  buildRequest w c ctx method path bodyBytes params = inl e →
  ∃ msg cause, e = ErrWrap msg cause.
Proof.
  unfold buildRequest, try. intros H.
  destruct (http_NewRequestWithContext w ctx method _ _); naive_solver.
Qed.

Lemma outbound_error (c : Client Ctx) (ctx : Ctx) (method path : string)
    (reqData : option value) (e : error) :
  outbound w c ctx method path reqData = inl e → ∃ msg cause, e = ErrWrap msg cause.
Proof.
  unfold outbound, try. intros H.
  destruct (encodeRequest w reqData) as [e'|enc] eqn:E.
  - inversion H; subst. by apply encodeRequest_error in E.
  - by apply buildRequest_error in H.
Qed.

Lemma roundTrip_error (c : Client Ctx) (ctx : Ctx) (req : Request) (e : error) :
  roundTrip w c ctx req = inl e → ∃ msg cause, e = ErrWrap msg cause.
Proof.
  unfold roundTrip, try. intros H.
  destruct (httpClient c ctx req); [naive_solver..|].
  destruct (json_Unmarshal w TResponse respBody); naive_solver.
Qed.

Lemma exchangeEnvelope_error (c : Client Ctx) (ctx : Ctx) (method path : string)
    (reqData : option value) (e : error) :
  exchangeEnvelope w c ctx method path reqData = inl e →
  ∃ msg cause, e = ErrWrap msg cause.
Proof.
  unfold exchangeEnvelope, try. intros H.
  destruct (outbound w c ctx method path reqData) as [e'|req] eqn:E.
  - inversion H; subst. by apply outbound_error in E.
  - by apply roundTrip_error in H.
Qed.

(** *** What [doRequest] returns *)

Lemma doRequest_early_error (c : Client Ctx) (ctx : Ctx) (method path : string)
    (reqData : option value) (e : error) :
  exchangeEnvelope w c ctx method path reqData = inl e →
  doRequest w c ctx method path reqData = (None, Some e).
Proof. unfold doRequest. by intros ->. Qed.

Lemma doRequest_business_error (c : Client Ctx) (ctx : Ctx) (method path : string)
    (reqData : option value) (env : Response.t) :
  exchangeEnvelope w c ctx method path reqData = inr env →
  Response.Code env ≠ 0 →
  doRequest w c ctx method path reqData
  = (Some env,
     Some (ErrAPI (NewAPIError (Response.Code env) (Response.Message env)))).
Proof. unfold doRequest. intros -> Hcode. by rewrite decide_True. Qed.

Lemma doRequest_success (c : Client Ctx) (ctx : Ctx) (method path : string)
    (reqData : option value) (env : Response.t) :
  exchangeEnvelope w c ctx method path reqData = inr env →
  Response.Code env = 0 →
  doRequest w c ctx method path reqData = (Some env, None).
Proof. unfold doRequest. intros -> Hcode. rewrite decide_False; [done|]. by intros []. Qed.

(** [doRequest] never returns a nil response with a nil error, so the
    operations never dereference a nil pointer. *)
Lemma doRequest_not_nil_nil (c : Client Ctx) (ctx : Ctx) (method path : string)
    (reqData : option value) :
  doRequest w c ctx method path reqData ≠ (None, None).
Proof.
  unfold doRequest.
  destruct (exchangeEnvelope w c ctx method path reqData); [done|].
  by case_decide.
Qed.

Lemma decodeData_business_error (t : target) (env : Response.t) (e : error) :
  decodeData w t (Some env, Some e) = Returns None (Some e).
Proof. done. Qed.

Lemma decodeData_no_panic (t : target) (c : Client Ctx) (ctx : Ctx)
    (method path : string) (reqData : option value) :
  decodeData w t (doRequest w c ctx method path reqData) ≠ Panics.
Proof.
  pose proof (doRequest_not_nil_nil c ctx method path reqData) as H.
  destruct (doRequest w c ctx method path reqData) as [[resp|] [err|]];
    simpl; try done.
  by destruct (json_Unmarshal w t (Response.Data resp)).
Qed.

(** The operations return: [resp.Data] is never read through a nil
    pointer. *)
Lemma operations_return (c : Client Ctx) (ctx : Ctx) :
  (∀ req, SendMessage w c ctx req ≠ Panics) ∧
  (∀ req, SendBatch w c ctx req ≠ Panics) ∧
  (∀ taskID, QueryTask w c ctx taskID ≠ Panics).
Proof.
  unfold SendMessage, SendBatch, QueryTask. repeat split; intros ?.
  - apply (decodeData_no_panic TSendMessageData).
  - apply (decodeData_no_panic TSendBatchData).
  - apply (decodeData_no_panic TQueryTaskData).
Qed.

End DispatcherProperties.

Section DispatcherClaims.

Context {Ctx : Type} (w : World Ctx).


(** C8. [IsAPIError] holds of an error exactly when it is an [APIError];
    among the errors that [doRequest] returns, that is exactly the one made
    from an envelope with a nonzero code: every error that ends the call
    earlier (serialization, request construction, transport, decoding of
    the envelope) is a wrapped error and is not classified as a business
    error. *)
Theorem IsAPIError_discriminates (c : Client Ctx) (ctx : Ctx) (method path : string)
    (reqData : option value) :
  (∀ err : option error,
     IsAPIError err = true ↔ ∃ code message, err = Some (ErrAPI (NewAPIError code message))) ∧
  match exchangeEnvelope w c ctx method path reqData with
  | inl e =>
      doRequest w c ctx method path reqData = (None, Some e) ∧
      (∃ msg cause, e = ErrWrap msg cause) ∧
      IsAPIError (Some e) = false
  | inr env =>
      ∃ err, doRequest w c ctx method path reqData = (Some env, err) ∧
        (IsAPIError err = true ↔ Response.Code env ≠ 0) ∧
        (Response.Code env ≠ 0 →
         err = Some (ErrAPI (NewAPIError (Response.Code env) (Response.Message env)))) ∧
        (Response.Code env = 0 → err = None)
  end.
Proof.
  split.
  - intros err. rewrite IsAPIError_iff. split.
    + intros [[code message] ->]. by exists code, message.
    + intros (code & message & ->). by eexists.
  - destruct (exchangeEnvelope w c ctx method path reqData) as [e|env] eqn:E.
    + split; [by apply doRequest_early_error|].
      destruct (exchangeEnvelope_error w _ _ _ _ _ _ E) as (msg & cause & ->).
      split; [by exists msg, cause|done].
    + destruct (decide (Response.Code env = 0)) as [Hz|Hnz].
      * exists None. rewrite (doRequest_success w _ _ _ _ _ env E Hz).
        by repeat split.
      * eexists. rewrite (doRequest_business_error w _ _ _ _ _ env E Hnz).
        by repeat split.
Qed.

End DispatcherClaims.

(** The three ways a call ends before an envelope is decoded, and the
    error of an operation that cannot decode [resp.Data]. *)
Lemma serialization_error_not_business {Ctx} (w : World Ctx) (c : Client Ctx)
    (ctx : Ctx) (method path : string) (reqData : option value) (e : error) :
  encodeRequest w reqData = inl e →
  doRequest w c ctx method path reqData = (None, Some e) ∧ IsAPIError (Some e) = false.
Proof.
  intros E. destruct (encodeRequest_error w _ _ E) as (msg & cause & ->).
  split; [|done]. apply doRequest_early_error.
  unfold exchangeEnvelope, outbound, try. by rewrite E.
Qed.

Lemma transport_error_not_business {Ctx} (w : World Ctx) (c : Client Ctx)
    (ctx : Ctx) (method path : string) (reqData : option value)
    (req : Request) (cause : error) :
  outbound w c ctx method path reqData = inr req →
  httpClient c ctx req = DoFails cause ∨ httpClient c ctx req = ReadFails cause →
  ∃ msg, doRequest w c ctx method path reqData = (None, Some (ErrWrap msg cause)) ∧
         IsAPIError (Some (ErrWrap msg cause)) = false.
Proof.
  intros E [H|H].
  - exists "do request". split; [|done]. apply doRequest_early_error.
    unfold exchangeEnvelope, try, roundTrip. by rewrite E, H.
  - exists "read response body". split; [|done]. apply doRequest_early_error.
    unfold exchangeEnvelope, try, roundTrip. by rewrite E, H.
Qed.

Lemma decode_error_not_business {Ctx} (w : World Ctx) (c : Client Ctx)
    (ctx : Ctx) (method path : string) (reqData : option value)
    (req : Request) (respBody : string) (cause : error) :
  outbound w c ctx method path reqData = inr req →
  httpClient c ctx req = Replies respBody →
  json_Unmarshal w TResponse respBody = inl cause →
  doRequest w c ctx method path reqData
    = (None, Some (ErrWrap "unmarshal response" cause)) ∧
  IsAPIError (Some (ErrWrap "unmarshal response" cause)) = false.
Proof.
  intros E H1 H2. split; [|done]. apply doRequest_early_error.
  unfold exchangeEnvelope, try, roundTrip. by rewrite E, H1, H2.
Qed.

(** An [APIError] handed back by a custom transport is wrapped on its way
    out and no longer recognized. *)
Example wrapped_APIError_not_recognized :
  IsAPIError (Some (ErrWrap "do request" (ErrAPI (NewAPIError 20003 "x")))) = false.
Proof. reflexivity. Qed.

(** *** The scenario of a rejected signature *)

Example scenario_body :
  json.Marshal (value_of_SendMessageRequest (Some Scenario.req)) = Some Scenario.body.
Proof. by vm_compute. Qed.




(** ** Content-Type and the request body *)

Section OutboundRequest.

Context {Ctx : Type} (w : World Ctx).









End OutboundRequest.



(** The other direction: a payload sent with another method has a body
    and no Content-Type. *)
Example body_without_content_type :
  ∃ req : Request,
    outbound Scenario.world Scenario.client () "PUT" "/api/v1/messages"
      (Some (value_of_SendMessageRequest (Some Scenario.req))) = inr req ∧
    has_body req ∧ Header req !! "Content-Type" = None.
Proof.
  eexists. split; [by vm_compute|]. split; [by eexists|]. by vm_compute.
Qed.

(** * Part III: further properties of the code *)

(** ** Construction of a client *)

Lemma apply_options_app (opts1 opts2 : list construct.ClientOption)
    (c : construct.Client) (h : gmap nat construct.http_Client) :
  construct.apply_options (opts1 ++ opts2) c h
  = match construct.apply_options opts1 c h with
    | Some (c', h') => construct.apply_options opts2 c' h'
    | None => None
    end.
Proof.
  revert c h. induction opts1 as [|opt opts1 IH]; intros c h; simpl; [done|].
  destruct (opt c h) as [[c' h']|]; [apply IH|done].
Qed.

(** X1. [NewClient] without options: the credentials are stored as given, and
    the client points to a newly allocated [http.Client] with a timeout
    of ten seconds; no object that existed before is touched or shared. *)
Theorem NewClient_defaults (baseURL appID appSecret : string)
    (h : gmap nat construct.http_Client) :
  ∃ p h',
    construct.NewClient baseURL appID appSecret [] h
    = Some ({| construct.baseURL := baseURL; construct.appID := appID;
               construct.appSecret := appSecret;
               construct.httpClient := Some p |}, h') ∧
    h !! p = None ∧
    h' !! p = Some {| construct.Timeout := 10000000000; construct.others := 0 |} ∧
    ∀ q, q ≠ p → h' !! q = h !! q.
Proof.
  exists (fresh (dom h)), (<[fresh (dom h) :=
    {| construct.Timeout := 10000000000; construct.others := 0 |}]> h).
  repeat split.
  - apply not_elem_of_dom, is_fresh.
  - by rewrite lookup_insert_eq.
  - intros q Hq. by rewrite lookup_insert_ne.
Qed.

(** The options that the package provides never change the credentials. *)
Lemma provided_keeps_credentials (opt : construct.ClientOption)
    (c c' : construct.Client) (h h' : gmap nat construct.http_Client) :
  construct.provided opt → opt c h = Some (c', h') →
  construct.baseURL c' = construct.baseURL c ∧
  construct.appID c' = construct.appID c ∧
  construct.appSecret c' = construct.appSecret c.
Proof.
  intros [client|timeout] H.
  - inversion H; subst. done.
  - unfold construct.WithTimeout in H.
    destruct (construct.httpClient c) as [p|]; [|done]. simpl in H.
    destruct (h !! p); [|done]. simpl in H. by inversion H; subst.
Qed.

(** X2. Whatever options of the package are passed, in whatever order, the
    client that [NewClient] returns holds the base URL, the application
    identifier and the secret it was given. *)
Theorem NewClient_credentials (baseURL appID appSecret : string)
    (opts : list construct.ClientOption) (h h' : gmap nat construct.http_Client)
    (c : construct.Client) :
  Forall construct.provided opts →
  construct.NewClient baseURL appID appSecret opts h = Some (c, h') →
  construct.baseURL c = baseURL ∧ construct.appID c = appID ∧
  construct.appSecret c = appSecret.
Proof.
  unfold construct.NewClient.
  generalize (<[fresh (dom h) :=
    {| construct.Timeout := 10 * construct.time_Second; construct.others := 0 |}]> h).
  assert (∀ opts c0 h0, Forall construct.provided opts →
            construct.apply_options opts c0 h0 = Some (c, h') →
            construct.baseURL c = construct.baseURL c0 ∧
            construct.appID c = construct.appID c0 ∧
            construct.appSecret c = construct.appSecret c0) as Hgen.
  { clear. induction opts as [|opt opts IH]; intros c0 h0 Hp H; simpl in H.
    - by inversion H.
    - apply Forall_cons in Hp as [Hopt Hp].
      destruct (opt c0 h0) as [[c1 h1]|] eqn:E; [|done].
      destruct (provided_keeps_credentials _ _ _ _ _ Hopt E) as (E1 & E2 & E3).
      destruct (IH _ h1 Hp H) as (F1 & F2 & F3).
      repeat split; congruence. }
  intros h0 Hp H. by apply (Hgen _ _ _ Hp H).
Qed.

Lemma NewClient_credentials_witness :
  Forall construct.provided [construct.WithTimeout 5; construct.WithHTTPClient (Some 7%nat)] ∧
  construct.NewClient "u" "a" "s"
    [construct.WithTimeout 5; construct.WithHTTPClient (Some 7%nat)] ∅
  = Some ({| construct.baseURL := "u"; construct.appID := "a";
             construct.appSecret := "s"; construct.httpClient := Some 7%nat |},
          {[ 0%nat := {| construct.Timeout := 5; construct.others := 0 |} ]}) ∧
  construct.baseURL {| construct.baseURL := "u"; construct.appID := "a";
             construct.appSecret := "s"; construct.httpClient := Some 7%nat |} = "u" ∧
  construct.appID {| construct.baseURL := "u"; construct.appID := "a";
             construct.appSecret := "s"; construct.httpClient := Some 7%nat |} = "a" ∧
  construct.appSecret {| construct.baseURL := "u"; construct.appID := "a";
             construct.appSecret := "s"; construct.httpClient := Some 7%nat |} = "s".
Proof.
  assert (Forall construct.provided
            [construct.WithTimeout 5; construct.WithHTTPClient (Some 7%nat)]) as Hp
    by (repeat constructor).
  assert (construct.NewClient "u" "a" "s"
            [construct.WithTimeout 5; construct.WithHTTPClient (Some 7%nat)] ∅
          = Some ({| construct.baseURL := "u"; construct.appID := "a";
                     construct.appSecret := "s"; construct.httpClient := Some 7%nat |},
                  {[ 0%nat := {| construct.Timeout := 5; construct.others := 0 |} ]}))
    as Hrun by (by vm_compute).
  split; [exact Hp|]. split; [exact Hrun|].
  exact (NewClient_credentials "u" "a" "s" _ ∅ _ _ Hp Hrun).
Defined.

(** X3. [WithTimeout] after [WithHTTPClient] writes the timeout into the
    caller's own [http.Client], which the new client shares by pointer;
    the other fields of that object stay as they were. *)
Theorem WithTimeout_writes_callers_client (baseURL appID appSecret : string)
    (q : nat) (hc : construct.http_Client) (timeout : Z)
    (h : gmap nat construct.http_Client) :
  h !! q = Some hc →
  ∃ c h',
    construct.NewClient baseURL appID appSecret
      [construct.WithHTTPClient (Some q); construct.WithTimeout timeout] h
    = Some (c, h') ∧
    construct.httpClient c = Some q ∧
    h' !! q = Some {| construct.Timeout := timeout;
                      construct.others := construct.others hc |}.
Proof.
  intros Hq.
  assert (q ≠ fresh (dom h)) as Hne.
  { intros ->. apply (is_fresh (dom h)). apply elem_of_dom. by eexists. }
  unfold construct.NewClient. simpl.
  unfold construct.WithTimeout. simpl.
  rewrite lookup_insert_ne by done. rewrite Hq. simpl.
  eexists _, _. split; [done|]. split; [done|].
  by rewrite lookup_insert_eq.
Qed.

Lemma WithTimeout_writes_callers_client_witness :
  ({[ 7%nat := {| construct.Timeout := 30; construct.others := 1 |} ]}
     : gmap nat construct.http_Client) !! 7%nat
  = Some {| construct.Timeout := 30; construct.others := 1 |} ∧
  ∃ c h',
    construct.NewClient "u" "a" "s"
      [construct.WithHTTPClient (Some 7%nat); construct.WithTimeout 5]
      {[ 7%nat := {| construct.Timeout := 30; construct.others := 1 |} ]}
    = Some (c, h') ∧
    construct.httpClient c = Some 7%nat ∧
    h' !! 7%nat = Some {| construct.Timeout := 5; construct.others := 1 |}.
Proof.
  split; [reflexivity|].
  apply (WithTimeout_writes_callers_client "u" "a" "s" 7
           {| construct.Timeout := 30; construct.others := 1 |} 5).
  reflexivity.
Defined.

(** X4. [WithTimeout] before [WithHTTPClient] has no effect on the client
    in use: the timeout went to the default [http.Client], which the
    second option replaces; the caller's object keeps its own timeout. *)
Theorem WithTimeout_before_WithHTTPClient_is_lost (baseURL appID appSecret : string)
    (q : nat) (hc : construct.http_Client) (timeout : Z)
    (h : gmap nat construct.http_Client) :
  h !! q = Some hc →
  ∃ c h',
    construct.NewClient baseURL appID appSecret
      [construct.WithTimeout timeout; construct.WithHTTPClient (Some q)] h
    = Some (c, h') ∧
    construct.httpClient c = Some q ∧
    h' !! q = Some hc.
Proof.
  intros Hq.
  assert (q ≠ fresh (dom h)) as Hne.
  { intros ->. apply (is_fresh (dom h)). apply elem_of_dom. by eexists. }
  unfold construct.NewClient. simpl.
  unfold construct.WithTimeout. simpl.
  rewrite lookup_insert_eq. simpl.
  eexists _, _. split; [done|]. split; [done|].
  by rewrite !lookup_insert_ne.
Qed.

Lemma WithTimeout_before_WithHTTPClient_is_lost_witness :
  ({[ 7%nat := {| construct.Timeout := 30; construct.others := 1 |} ]}
     : gmap nat construct.http_Client) !! 7%nat
  = Some {| construct.Timeout := 30; construct.others := 1 |} ∧
  ∃ c h',
    construct.NewClient "u" "a" "s"
      [construct.WithTimeout 5; construct.WithHTTPClient (Some 7%nat)]
      {[ 7%nat := {| construct.Timeout := 30; construct.others := 1 |} ]}
    = Some (c, h') ∧
    construct.httpClient c = Some 7%nat ∧
    h' !! 7%nat = Some {| construct.Timeout := 30; construct.others := 1 |}.
Proof.
  split; [reflexivity|].
  apply (WithTimeout_before_WithHTTPClient_is_lost "u" "a" "s" 7
           {| construct.Timeout := 30; construct.others := 1 |} 5).
  reflexivity.
Defined.

(** X5. [WithHTTPClient(nil)] followed by [WithTimeout] makes [NewClient]
    panic, whatever options come before and after. *)
Theorem WithTimeout_on_nil_client_panics (baseURL appID appSecret : string)
    (opts rest : list construct.ClientOption) (timeout : Z)
    (h : gmap nat construct.http_Client) :
  construct.NewClient baseURL appID appSecret
    (opts ++ construct.WithHTTPClient None :: construct.WithTimeout timeout :: rest) h
  = None.
Proof.
  unfold construct.NewClient. rewrite apply_options_app.
  destruct (construct.apply_options opts _ _) as [[c' h']|]; [|done].
  done.
Qed.

(** X6. When [WithTimeout] is the last option and [NewClient] returns,
    the [http.Client] that the new client points to has that timeout. *)
Theorem last_WithTimeout_wins (baseURL appID appSecret : string)
    (opts : list construct.ClientOption) (timeout : Z)
    (h h' : gmap nat construct.http_Client) (c : construct.Client) :
  construct.NewClient baseURL appID appSecret (opts ++ [construct.WithTimeout timeout]) h
  = Some (c, h') →
  ∃ p hc, construct.httpClient c = Some p ∧ h' !! p = Some hc ∧
          construct.Timeout hc = timeout.
Proof.
  unfold construct.NewClient. rewrite apply_options_app.
  destruct (construct.apply_options opts _ _) as [[c1 h1]|]; [|done].
  simpl. unfold construct.WithTimeout.
  destruct (construct.httpClient c1) as [p|] eqn:Hp; [|done]. simpl.
  destruct (h1 !! p) as [hc|]; [|done]. simpl.
  intros H. inversion H; subst. eexists p, _. split; [done|].
  by rewrite lookup_insert_eq.
Qed.

Lemma last_WithTimeout_wins_witness :
  construct.NewClient "u" "a" "s" ([] ++ [construct.WithTimeout 5]) ∅
  = Some ({| construct.baseURL := "u"; construct.appID := "a";
             construct.appSecret := "s"; construct.httpClient := Some 0%nat |},
          {[ 0%nat := {| construct.Timeout := 5; construct.others := 0 |} ]}) ∧
  ∃ p hc,
    construct.httpClient
      {| construct.baseURL := "u"; construct.appID := "a";
         construct.appSecret := "s"; construct.httpClient := Some 0%nat |} = Some p ∧
    ({[ 0%nat := {| construct.Timeout := 5; construct.others := 0 |} ]}
       : gmap nat construct.http_Client) !! p = Some hc ∧
    construct.Timeout hc = 5.
Proof.
  assert (construct.NewClient "u" "a" "s" ([] ++ [construct.WithTimeout 5]) ∅
          = Some ({| construct.baseURL := "u"; construct.appID := "a";
                     construct.appSecret := "s"; construct.httpClient := Some 0%nat |},
                  {[ 0%nat := {| construct.Timeout := 5; construct.others := 0 |} ]}))
    as Hrun by (by vm_compute).
  split; [exact Hrun|].
  exact (last_WithTimeout_wins "u" "a" "s" [] 5 ∅ _ _ Hrun).
Defined.

(** ** Canonicalization and signature (signature.go) *)

Lemma append_assoc (s1 s2 s3 : string) : (s1 +:+ s2) +:+ s3 = s1 +:+ s2 +:+ s3.
Proof.
  induction s1 as [|c s1 IH]; [done|].
  change (String c ((s1 +:+ s2) +:+ s3) = String c (s1 +:+ s2 +:+ s3)).
  by rewrite IH.
Qed.

Lemma writeObject_None (fields : list (string * option string)) :
  json.writeObject fields = None ↔ ∃ k, (k, None) ∈ fields.
Proof.
  unfold json.writeObject.
  destruct (mapM json.writeField fields) as [fs|] eqn:E; simpl.
  - split; [done|]. intros [k Hk].
    apply mapM_Some_1 in E.
    apply list_elem_of_lookup in Hk as [i Hi].
    destruct (Forall2_lookup_l _ _ _ _ _ E Hi) as (y & _ & Hy). done.
  - split; [|done]. intros _.
    apply mapM_None_1, Exists_exists in E as ([k [e|]] & Hin & Hf); [done|].
    by exists k.
Qed.

Lemma writeObject_Some_nonempty (fields : list (string * option string)) (b : string) :
  json.writeObject fields = Some b → ∃ t, b = String "{" t.
Proof.
  unfold json.writeObject. destruct (mapM json.writeField fields); simpl; [|done].
  intros H. inversion H. by eexists.
Qed.

Lemma encoded_None (kvs : list (string * value)) (k : string) :
  (k, None) ∈ encoded kvs ↔ ∃ v, (k, v) ∈ kvs ∧ json.encode v = None.
Proof.
  unfold encoded. rewrite list_elem_of_In, in_map_iff. split.
  - intros ([k' v] & Heq & Hin). inversion Heq; subst.
    exists v. split; [by apply list_elem_of_In|done].
  - intros (v & Hin & Hv). exists (k, v). split; [by rewrite Hv|by apply list_elem_of_In].
Qed.

(** X7. The canonical string of a map is empty exactly when the map is
    empty or one of its values cannot be encoded: the encoder's error is
    discarded, and the parameters then count for nothing in the signature. *)
Theorem empty_canonical_iff (kvs : list (string * value)) :
  NoDup kvs.*1 →
  sortParams (Some kvs) = "" ↔
  kvs = [] ∨ ∃ k v, (k, v) ∈ kvs ∧ json.encode v = None.
Proof.
  intros Hnd. destruct (decide (kvs = [])) as [->|Hne].
  { split; [by left|done]. }
  rewrite sortParams_marshal by done. unfold json.encodeMap, string_of_result.
  destruct (json.writeObject (merge_sort json.entry_le (encoded kvs))) as [b|] eqn:E;
    simpl.
  - split.
    + intros ->. by apply writeObject_Some_nonempty in E as [t ?].
    + intros [?|(k & v & Hin & Hv)]; [done|].
      assert (json.writeObject (merge_sort json.entry_le (encoded kvs)) = None) as E'.
      { apply writeObject_None. exists k.
        rewrite (merge_sort_Permutation json.entry_le (encoded kvs)).
        apply encoded_None. by exists v. }
      congruence.
  - split; [|done]. intros _. right.
    apply writeObject_None in E as [k Hk].
    rewrite (merge_sort_Permutation json.entry_le (encoded kvs)) in Hk.
    apply encoded_None in Hk as (v & ? & ?). by exists k, v.
Qed.

Lemma empty_canonical_iff_witness :
  NoDup [("a", VInt 1); ("b", VOther None)].*1 ∧
  (sortParams (Some [("a", VInt 1); ("b", VOther None)]) = "" ↔
   [("a", VInt 1); ("b", VOther None)] = [] ∨
   ∃ k v, (k, v) ∈ [("a", VInt 1); ("b", VOther None)] ∧ json.encode v = None).
Proof.
  assert (NoDup [("a", VInt 1); ("b", VOther None)].*1) as Hnd by compute_done.
  split; [exact Hnd|].
  exact (empty_canonical_iff [("a", VInt 1); ("b", VOther None)] Hnd).
Defined.

Example unencodable_value_empties :
  sortParams (Some [("a", VInt 1); ("b", VOther None)]) = "".
Proof. reflexivity. Qed.

(** X8. The canonical string depends on the map only through its keys and
    the JSON text of each value: the integer 1 and the [float64] 1 that
    the round trip through JSON in [doRequest] makes of it sign alike. *)
Theorem sortParams_by_encoding (kvs1 kvs2 : list (string * value)) :
  NoDup kvs1.*1 → encoded kvs1 ≡ₚ encoded kvs2 →
  sortParams (Some kvs1) = sortParams (Some kvs2).
Proof.
  intros Hnd Hp.
  assert (NoDup kvs2.*1) as Hnd2.
  { rewrite <- (encoded_keys kvs2), <- Hp, encoded_keys. done. }
  destruct kvs1 as [|x kvs1].
  - apply Permutation_nil in Hp. by destruct kvs2.
  - destruct kvs2 as [|y kvs2]; [by apply Permutation_nil_r in Hp|].
    rewrite !sortParams_marshal by done.
    unfold json.encodeMap. do 2 f_equal.
    apply sorted_entries_unique; [by rewrite encoded_keys|done].
Qed.

Lemma sortParams_by_encoding_witness :
  NoDup [("channel_id", VInt 1)].*1 ∧
  encoded [("channel_id", VInt 1)] ≡ₚ encoded [("channel_id", VOther (Some "1"))] ∧
  sortParams (Some [("channel_id", VInt 1)])
  = sortParams (Some [("channel_id", VOther (Some "1"))]).
Proof.
  assert (NoDup [("channel_id", VInt 1)].*1) as Hnd by compute_done.
  assert (encoded [("channel_id", VInt 1)]
          ≡ₚ encoded [("channel_id", VOther (Some "1"))]) as Hp by reflexivity.
  split; [exact Hnd|]. split; [exact Hp|].
  exact (sortParams_by_encoding _ _ Hnd Hp).
Defined.

(** X11. The signed content has no delimiters: characters may move from
    the end of the method to the start of the path, or from the end of the
    timestamp to the start of the nonce, without changing the signature;
    with empty parameters also from the path to the timestamp. *)
Theorem generateSignature_boundaries
    (method path x timestamp nonce secret : string) (params : gomap) :
  generateSignature (method +:+ x) path params timestamp nonce secret
  = generateSignature method (x +:+ path) params timestamp nonce secret ∧
  generateSignature method path params (timestamp +:+ x) nonce secret
  = generateSignature method path params timestamp (x +:+ nonce) secret ∧
  (map_len params = 0%nat →
   generateSignature method (path +:+ x) params timestamp nonce secret
   = generateSignature method path params (x +:+ timestamp) nonce secret).
Proof.
  unfold generateSignature. repeat split.
  - by rewrite !append_assoc.
  - by rewrite !append_assoc.
  - intros Hlen. unfold sortParams. rewrite Hlen. simpl "=?"%nat. cbv iota.
    by rewrite !append_assoc.
Qed.

Lemma generateSignature_boundaries_witness :
  map_len (None : gomap) = 0%nat ∧
  generateSignature "POST" ("/api/v1/messages" +:+ "17") None "00000000" "n" "k"
  = generateSignature "POST" "/api/v1/messages" None ("17" +:+ "00000000") "n" "k".
Proof.
  split; [reflexivity|].
  exact (proj2 (proj2 (generateSignature_boundaries
                         "POST" "/api/v1/messages" "17" "00000000" "n" "k" None))
           eq_refl).
Defined.

Lemma has_char_app (c : ascii) (s1 s2 : string) :
  has_char c (s1 +:+ s2) = has_char c s1 || has_char c s2.
Proof.
  induction s1 as [|c1 s1 IH]; [done|].
  change (Ascii.eqb c1 c || has_char c (s1 +:+ s2)
          = Ascii.eqb c1 c || has_char c s1 || has_char c s2).
  by rewrite IH, orb_assoc.
Qed.

Lemma html_free_app (s1 s2 : string) :
  html_free (s1 +:+ s2) ↔ html_free s1 ∧ html_free s2.
Proof.
  unfold html_free. rewrite !has_char_app, !orb_false_iff. tauto.
Qed.

Lemma html_free_String (c : ascii) (s : string) :
  html_free (String c s) ↔ html_free_char c = true ∧ html_free s.
Proof.
  unfold html_free, html_free_char. simpl.
  rewrite negb_true_iff, !orb_false_iff. tauto.
Qed.

Lemma high_byte_html_free (c : ascii) :
  (N_of_ascii c <? 0x80)%N = false → html_free_char c = true.
Proof. destruct c as [[] [] [] [] [] [] [] []]; by vm_compute. Qed.

Lemma appendASCII_html_free (c : ascii) : html_free (json.appendASCII c).
Proof. destruct c as [[] [] [] [] [] [] [] []]; by vm_compute. Qed.

Lemma between_high (lo hi b : N) :
  (0x80 ≤ lo)%N → utf8.between lo hi b = true → (b <? 0x80)%N = false.
Proof.
  unfold utf8.between. intros Hlo H. apply andb_true_iff in H as [H _].
  apply N.leb_le in H. apply N.ltb_ge. lia.
Qed.

Lemma first_lo (s0 : N) (sz : nat) (lo hi : N) :
  utf8.first s0 = Some (sz, lo, hi) → (0x80 ≤ lo)%N ∧ (sz ≤ 4)%nat.
Proof.
  unfold utf8.first.
  repeat match goal with
         | |- context [if ?b then _ else _] => destruct b
         end; intros H; inversion H; subst; lia.
Qed.

Lemma DecodeRune_high_prefix (c : ascii) (t : string) (r : N) (size : nat) :
  utf8.DecodeRuneInString (String c t) = (r, size) →
  high_prefix (size - 1) t.
Proof.
  unfold utf8.DecodeRuneInString.
  destruct (N_of_ascii c <? 0x80)%N; [intros H; by inversion H|].
  destruct (utf8.first (N_of_ascii c)) as [[[sz lo] hi]|] eqn:Hf;
    [|intros H; by inversion H].
  destruct (first_lo _ _ _ _ Hf) as [Hlo Hsz].
  destruct (String.length (String c t) <? sz)%nat; [intros H; by inversion H|].
  destruct t as [|c1 t1]; [intros H; by inversion H|].
  destruct (utf8.between lo hi (N_of_ascii c1)) eqn:H1; simpl negb; cbv iota;
    [|intros H; by inversion H].
  apply (between_high _ _ _ Hlo) in H1.
  destruct (sz <=? 2)%nat; [intros H; inversion H; simpl; done|].
  destruct t1 as [|c2 t2]; [intros H; by inversion H|].
  destruct (utf8.between 0x80 0xBF (N_of_ascii c2)) eqn:H2; simpl negb; cbv iota;
    [|intros H; by inversion H].
  apply between_high in H2; [|done].
  destruct (sz <=? 3)%nat; [intros H; inversion H; simpl; done|].
  destruct t2 as [|c3 t3]; [intros H; by inversion H|].
  destruct (utf8.between 0x80 0xBF (N_of_ascii c3)) eqn:H3; simpl negb; cbv iota;
    [|intros H; by inversion H].
  apply between_high in H3; [|done].
  intros H; inversion H; simpl. done.
Qed.

Lemma hexdigit_html_free (i : nat) : html_free_char (hexdigit i) = true.
Proof. do 16 (destruct i as [|i]; [reflexivity|]). reflexivity. Qed.

Lemma appendBody_html_free (s : string) (keep : bool) (pending : nat) :
  (keep = true → high_prefix pending s) →
  html_free (json.appendBody keep pending s).
Proof.
  revert keep pending. induction s as [|c t IH]; intros keep pending Hinv.
  { by vm_compute. }
  destruct pending as [|n].
  - cbn [json.appendBody].
    destruct (N_of_ascii c <? 0x80)%N eqn:Hc.
    + apply html_free_app. split; [apply appendASCII_html_free|by apply IH].
    + destruct (utf8.DecodeRuneInString (String c t)) as [r size] eqn:Hd.
      pose proof (DecodeRune_high_prefix _ _ _ _ Hd) as Hp.
      destruct ((r =? utf8.RuneError)%N && (size =? 1)%nat).
      * apply html_free_app. split; [by vm_compute|by apply IH].
      * destruct ((r =? 0x2028) || (r =? 0x2029))%N.
        -- apply html_free_app. split; [by vm_compute|].
           apply html_free_String. split; [apply hexdigit_html_free|].
           by apply IH.
        -- apply html_free_String. split; [by apply high_byte_html_free|].
           by apply IH.
  - cbn [json.appendBody]. destruct keep.
    + destruct (Hinv eq_refl) as [Hc Ht].
      apply html_free_String. split; [by apply high_byte_html_free|].
      by apply IH.
    + by apply IH.
Qed.

Lemma appendString_html_free (s : string) : html_free (json.appendString s).
Proof.
  unfold json.appendString. apply html_free_String. split; [done|].
  apply html_free_app. split; [by apply appendBody_html_free|by vm_compute].
Qed.
Lemma html_free_concat (fs : list string) :
  Forall html_free fs → html_free (String.concat "," fs).
Proof.
  induction 1 as [|f fs Hf Hfs IH]; [by vm_compute|].
  destruct fs as [|g fs]; [done|].
  change (html_free (f +:+ "," +:+ String.concat "," (g :: fs))).
  apply html_free_app. split; [done|].
  apply html_free_app. split; [by vm_compute|done].
Qed.

Lemma FormatInt_html_free (n : Z) : html_free (FormatInt n).
Proof.
  assert (∀ d, html_free (NilEmpty.string_of_uint d)) as Hd.
  { induction d; simpl; try (by vm_compute);
      apply html_free_String; split; done. }
  unfold FormatInt, NilZero.string_of_int, NilZero.string_of_uint.
  destruct (Z.to_int n) as [d|d]; destruct d; try (by vm_compute);
    try apply Hd; apply html_free_String; (split; [done|apply Hd]).
Qed.

Lemma writeObject_html_free (fields : list (string * option string)) (b : string) :
  Forall (fun kv => ∀ e, kv.2 = Some e → html_free e) fields →
  json.writeObject fields = Some b → html_free b.
Proof.
  intros Hall. unfold json.writeObject.
  destruct (mapM json.writeField fields) as [fs|] eqn:E; [|done]. simpl.
  intros H. inversion H; subst; clear H.
  apply html_free_app. split; [by vm_compute|].
  apply html_free_app. split; [|by vm_compute].
  apply html_free_concat.
  apply mapM_Some_1 in E. revert Hall.
  induction E as [|[k o] f fields fs Hf E IH]; intros Hall; [constructor|].
  apply Forall_cons in Hall as [Hkv Hall].
  constructor; [|by apply IH].
  unfold json.writeField in Hf. simpl in Hf, Hkv.
  destruct o as [e|]; [|done]. simpl in Hf. inversion Hf; subst.
  apply html_free_app. split; [apply appendString_html_free|].
  apply html_free_app. split; [by vm_compute|by apply Hkv].
Qed.

Lemma encoded_html_free (kvs : list (string * value)) :
  Forall (fun kv => plain kv.2 → ∀ b, json.encode kv.2 = Some b → html_free b) kvs →
  foldr (fun kv P => plain kv.2 ∧ P) True kvs →
  Forall (fun kv : string * option string => ∀ e, kv.2 = Some e → html_free e)
    (encoded kvs).
Proof.
  induction 1 as [|[k x] kvs Hx Hall IH]; simpl; intros Hp; [constructor|].
  destruct Hp as [Hpx Hp]. constructor; [|by apply IH].
  simpl. intros e He. by apply Hx.
Qed.

(** The text of a plain value holds none of [<], [>] and [&]. *)
Lemma encode_html_free (v : value) :
  plain v → ∀ b, json.encode v = Some b → html_free b.
Proof.
  induction v as [|b0|n|s|vs IH|kvs IH|fields IH|enc] using value_nested_ind;
    intros Hp b Hb.
  - inversion Hb. by vm_compute.
  - inversion Hb. destruct b0; by vm_compute.
  - inversion Hb. apply FormatInt_html_free.
  - inversion Hb. apply appendString_html_free.
  - cbn [json.encode] in Hb.
    destruct (mapM json.encode vs) as [es|] eqn:E; [|done]. simpl in Hb.
    inversion Hb; subst; clear Hb.
    apply html_free_app. split; [by vm_compute|].
    apply html_free_app. split; [|by vm_compute].
    apply html_free_concat. apply mapM_Some_1 in E.
    simpl in Hp. revert IH Hp.
    induction E as [|x e vs es He E IHE]; intros IH Hp; [constructor|].
    apply Forall_cons in IH as [IHx IH]. destruct Hp as [Hpx Hp].
    constructor; [by apply IHx|by apply IHE].
  - cbn [json.encode] in Hb. fold (encoded kvs) in Hb. unfold json.encodeMap in Hb.
    apply (writeObject_html_free _ _) in Hb; [done|].
    rewrite (merge_sort_Permutation json.entry_le (encoded kvs)).
    by apply encoded_html_free.
  - cbn [json.encode] in Hb. fold (encoded fields) in Hb.
    apply (writeObject_html_free _ _) in Hb; [done|].
    by apply encoded_html_free.
  - done.
Qed.

(** X10. The canonical string of plain parameters never holds the bytes
    [<], [>] and [&]: [json.Marshal] escapes them in keys and in string
    values, so they are signed in their escaped form. *)
Theorem sortParams_escapes_html (kvs : list (string * value)) :
  NoDup kvs.*1 → plain (VMap kvs) → html_free (sortParams (Some kvs)).
Proof.
  intros Hnd Hp. destruct (decide (kvs = [])) as [->|Hne]; [by vm_compute|].
  rewrite sortParams_marshal by done.
  destruct (json.encodeMap (encoded kvs)) as [b|] eqn:E; [|by vm_compute].
  simpl. by apply (encode_html_free (VMap kvs)).
Qed.

Example escaped_text :
  sortParams (Some [("a<b", VString "x&y>z")]) = dq "{'a\u003cb':'x\u0026y\u003ez'}".
Proof. by vm_compute. Qed.
Lemma encoded_same (kvs1 kvs2 : list (string * value)) :
  Forall (fun kv => distinct_keys kv.2 →
                    ∀ v2, same_value kv.2 v2 → json.encode kv.2 = json.encode v2) kvs1 →
  foldr (fun kv P => distinct_keys kv.2 ∧ P) True kvs1 →
  Forall2 (fun a b => a.1 = b.1 ∧ same_value a.2 b.2) kvs1 kvs2 →
  encoded kvs1 = encoded kvs2.
Proof.
  intros IH Hd H2. revert IH Hd.
  induction H2 as [|[k1 x1] [k2 x2] kvs1 kvs2 [Hk Hx] H2 IH2]; intros IH Hd; [done|].
  apply Forall_cons in IH as [IHx IH]. destruct Hd as [Hdx Hd]. simpl in *.
  subst k2. rewrite (IHx Hdx x2 Hx). f_equal. by apply IH2.
Qed.

Lemma encode_same_value (v1 : value) :
  distinct_keys v1 → ∀ v2, same_value v1 v2 → json.encode v1 = json.encode v2.
Proof.
  induction v1 as [|b0|n|s|vs IH|kvs IH|fields IH|enc] using value_nested_ind;
    intros Hd v2 Hs; inversion Hs; subst; try done.
  - cbn [json.encode]. f_equal.
    match goal with H : Forall2 same_value _ _ |- _ => rename H into H2 end.
    simpl in Hd. clear Hs. revert IH Hd.
    induction H2 as [|x1 x2 l1 l2 Hx H2 IH2]; intros IH Hd; [done|].
    apply Forall_cons in IH as [IHx IH]. destruct Hd as [Hdx Hd].
    cbn [mapM]. rewrite (IHx Hdx x2 Hx), (IH2 IH Hd). done.
  - destruct Hd as [Hnd Hd].
    match goal with H : Forall2 _ kvs _ |- _ => rename H into H2 end.
    match goal with H : _ ≡ₚ _ |- _ => rename H into Hp end.
    trans (json.encode (VMap mid)).
    + cbn [json.encode]. fold (encoded kvs). fold (encoded mid).
      by rewrite (encoded_same kvs mid IH Hd H2).
    + apply encode_VMap_Permutation; [|done].
      assert (mid.*1 = kvs.*1) as ->; [|done].
      clear -H2. induction H2 as [|[] [] ? ? [? ?]]; simpl in *; [done|].
      by f_equal.
  - match goal with H : Forall2 _ fields _ |- _ => rename H into H2 end.
    cbn [json.encode]. fold (encoded fields). fold (encoded fs2).
    simpl in Hd. by rewrite (encoded_same fields fs2 IH Hd H2).
Qed.

Lemma sortParams_escapes_html_witness :
  NoDup [("a<b", VString "x&y>z")].*1 ∧ plain (VMap [("a<b", VString "x&y>z")]) ∧
  html_free (sortParams (Some [("a<b", VString "x&y>z")])).
Proof.
  assert (NoDup [("a<b", VString "x&y>z")].*1) as Hnd by compute_done.
  assert (plain (VMap [("a<b", VString "x&y>z")])) as Hp by (simpl; tauto).
  split; [exact Hnd|]. split; [exact Hp|].
  exact (sortParams_escapes_html _ Hnd Hp).
Defined.

(** X9. Canonicalization is deep: the iteration order of the maps inside
    the parameters, at any depth, does not change the canonical string
    (the encoder sorts the keys of nested maps as well). *)
Theorem sortParams_deep_order (kvs1 kvs2 : list (string * value)) :
  distinct_keys (VMap kvs1) → same_value (VMap kvs1) (VMap kvs2) →
  sortParams (Some kvs1) = sortParams (Some kvs2).
Proof.
  intros Hd Hs. pose proof (encode_same_value _ Hd _ Hs) as He.
  assert (NoDup kvs1.*1) as Hnd1 by apply Hd.
  assert (length kvs1 = length kvs2 ∧ NoDup kvs2.*1) as [Hlen Hnd2].
  { inversion Hs as [| |? mid ? H2 Hp|]; subst; [done|].
    split; [by rewrite (Forall2_length _ _ _ H2), Hp|].
    rewrite <- Hp.
    assert (mid.*1 = kvs1.*1) as ->; [|done].
    clear -H2. induction H2 as [|[] [] ? ? [? ?]]; simpl in *; [done|].
    by f_equal. }
  destruct kvs1 as [|x kvs1]; destruct kvs2 as [|y kvs2]; try done.
  rewrite !sortParams_marshal by done.
  cbn [json.encode] in He. fold (encoded (x :: kvs1)) in He.
  fold (encoded (y :: kvs2)) in He. by rewrite He.
Qed.

Lemma sortParams_deep_order_witness :
  distinct_keys (VMap [("p", VMap [("x", VInt 1); ("y", VInt 2)])]) ∧
  same_value (VMap [("p", VMap [("x", VInt 1); ("y", VInt 2)])])
             (VMap [("p", VMap [("y", VInt 2); ("x", VInt 1)])]) ∧
  sortParams (Some [("p", VMap [("x", VInt 1); ("y", VInt 2)])])
  = sortParams (Some [("p", VMap [("y", VInt 2); ("x", VInt 1)])]).
Proof.
  assert (distinct_keys (VMap [("p", VMap [("x", VInt 1); ("y", VInt 2)])])) as Hd.
  { simpl. repeat split; compute_done. }
  assert (same_value (VMap [("p", VMap [("x", VInt 1); ("y", VInt 2)])])
                     (VMap [("p", VMap [("y", VInt 2); ("x", VInt 1)])])) as Hs.
  { apply (same_map _ [("p", VMap [("y", VInt 2); ("x", VInt 1)])]); [|reflexivity].
    repeat constructor. simpl.
    apply (same_map _ [("x", VInt 1); ("y", VInt 2)]).
    - repeat constructor.
    - apply perm_swap. }
  split; [exact Hd|]. split; [exact Hs|].
  exact (sortParams_deep_order _ _ Hd Hs).
Defined.

(** ** The error table and the error text (errors.go) *)

Lemma known_code_literal (code : Z) :
  known_code code ↔ code ∈ ErrorCodeMessages_literal.*1.
Proof.
  change (ErrorCodeMessages_literal.*1)
    with [10001; 10002; 10003; 10004; 10005; 10006;
          20001; 20002; 20003; 20004; 20005; 20006;
          30001; 30002; 30003; 30004; 30005; 30006; 30007; 30008;
          40001; 40002; 40003; 40004; 40005; 40006; 40007].
  unfold known_code. rewrite !elem_of_cons, elem_of_nil. lia.
Qed.

Lemma table_messages_proper :
  Forall (fun p : Z * string => p.2 ≠ "未知错误" ∧ p.2 ≠ "") ErrorCodeMessages_literal.
Proof. repeat constructor; discriminate. Qed.

(** X12. The table has an entry exactly for the codes 10001-10006,
    20001-20006, 30001-30008 and 40001-40007; [GetErrorMessage] returns the
    unknown-error text exactly for the codes outside these ranges (no entry
    of the table has that text), and never the empty string. *)
Theorem GetErrorMessage_unknown_iff (code : Z) :
  (is_Some (ErrorCodeMessages !! code) ↔ known_code code) ∧
  (GetErrorMessage code = "未知错误" ↔ ¬ known_code code) ∧
  GetErrorMessage code ≠ "".
Proof.
  assert (is_Some (ErrorCodeMessages !! code) ↔ known_code code) as Hdom.
  { rewrite known_code_literal. split.
    - intros [msg Hm]. apply ErrorCodeMessages_lookup in Hm.
      apply list_elem_of_fmap. by exists (code, msg).
    - intros Hin. apply list_elem_of_fmap in Hin as ([c msg] & -> & Hin).
      exists msg. by apply ErrorCodeMessages_lookup. }
  split; [exact Hdom|].
  unfold GetErrorMessage.
  destruct (ErrorCodeMessages !! code) as [msg|] eqn:E.
  - assert (known_code code) as Hk by (apply Hdom; by eexists).
    apply ErrorCodeMessages_lookup in E.
    pose proof table_messages_proper as Hall. rewrite Forall_forall in Hall.
    destruct (Hall _ E) as [H1 H2]. simpl in *. split; [|done].
    split; [done|]. intros Hn. by destruct Hn.
  - split; [|done]. split; [|done]. intros _ Hk.
    apply Hdom in Hk as [? ?]. done.
Qed.

Lemma split_at_char (c : ascii) (a b x y : string) :
  has_char c a = false → has_char c b = false →
  a +:+ String c x = b +:+ String c y → a = b ∧ x = y.
Proof.
  revert b. induction a as [|ca a IH]; intros [|cb b]; simpl; intros Ha Hb H.
  - by inversion H.
  - inversion H; subst. apply orb_false_iff in Hb as [Hb _].
    by rewrite Ascii.eqb_refl in Hb.
  - inversion H; subst. apply orb_false_iff in Ha as [Ha _].
    by rewrite Ascii.eqb_refl in Ha.
  - apply orb_false_iff in Ha as [_ Ha]. apply orb_false_iff in Hb as [_ Hb].
    change (String ca (a +:+ String c x) = String cb (b +:+ String c y)) in H.
    inversion H; subst. destruct (IH b Ha Hb) as [-> ->]; done.
Qed.

Lemma string_of_uint_digits (d : Decimal.uint) :
  has_char "]" (NilEmpty.string_of_uint d) = false.
Proof. induction d; simpl; done. Qed.

Lemma FormatInt_no_bracket (n : Z) : has_char "]" (FormatInt n) = false.
Proof.
  unfold FormatInt, NilZero.string_of_int, NilZero.string_of_uint.
  destruct (Z.to_int n) as [d|d]; destruct d; simpl; try done;
    apply string_of_uint_digits.
Qed.

Lemma FormatInt_inj (n1 n2 : Z) : FormatInt n1 = FormatInt n2 → n1 = n2.
Proof.
  unfold FormatInt. intros H.
  assert (∀ n, NilZero.int_of_string (NilZero.string_of_int (Z.to_int n))
               = Some (Z.to_int n)) as Hrt.
  { intros n. apply NilZero.isi.
    - destruct n; simpl; try done. unfold Z.to_int. simpl.
      intros Hp. inversion Hp as [Hp']. by apply DecimalPos.Unsigned.to_uint_nonnil in Hp'.
    - destruct n; simpl; try done. unfold Z.to_int.
      intros Hp. inversion Hp as [Hp']. by apply DecimalPos.Unsigned.to_uint_nonnil in Hp'. }
  apply DecimalZ.to_int_inj.
  apply (inj Some). by rewrite <- !Hrt, H.
Qed.

(** X13. The text of an [APIError] determines it: two errors with the
    same [Error()] text have the same code and the same message. *)
Theorem APIError_Error_inj (e1 e2 : APIError) :
  APIError_Error e1 = APIError_Error e2 → e1 = e2.
Proof.
  unfold APIError_Error. destruct e1 as [c1 m1], e2 as [c2 m2]. simpl.
  intros H. apply (inj (String.app "API error [")) in H.
  change ("]: " +:+ m1) with (String "]" (": " +:+ m1)) in H.
  change ("]: " +:+ m2) with (String "]" (": " +:+ m2)) in H.
  apply split_at_char in H as [Hc Hm]; try apply FormatInt_no_bracket.
  apply FormatInt_inj in Hc. apply (inj (String.app ": ")) in Hm. by subst.
Qed.

Lemma APIError_Error_inj_witness :
  APIError_Error (NewAPIError 20003 "signature invalid")
  = APIError_Error (NewAPIError 20003 "signature invalid") ∧
  NewAPIError 20003 "signature invalid" = NewAPIError 20003 "signature invalid".
Proof.
  split; [reflexivity|].
  apply (APIError_Error_inj (NewAPIError 20003 "signature invalid")
           (NewAPIError 20003 "signature invalid")).
  reflexivity.
Defined.

Example APIError_Error_text :
  APIError_Error (NewAPIError 20003 "signature invalid")
  = "API error [20003]: signature invalid".
Proof. reflexivity. Qed.

(** ** Payloads on the wire (types.go) *)

Lemma append_nil_r (s : string) : s +:+ "" = s.
Proof.
  induction s as [|c s IH]; [done|].
  change (String c (s +:+ "") = String c s). by rewrite IH.
Qed.

Lemma append_nil_l (s : string) : "" +:+ s = s.
Proof. reflexivity. Qed.

Ltac flatten_text :=
  cbn -[json.appendString FormatInt String.append];
  rewrite ?append_assoc, ?append_nil_r, ?append_nil_l; try reflexivity.

(** X14. The body of a single-message request: [channel_id],
    [signature_name] and [receiver] are always written, in this order, even
    when zero or empty; [template_params] is written exactly when the map
    is not empty and [scheduled_at] exactly when the string is not empty;
    serialization fails exactly when the template parameters cannot be
    encoded. *)
Theorem SendMessageRequest_wire (r : SendMessageRequest) :
  json.Marshal (value_of_SendMessageRequest (Some r)) = SendMessageRequest_text r.
Proof.
  unfold json.Marshal, value_of_SendMessageRequest, SendMessageRequest_text,
    optional_members, omitempty_map, omitempty_string, next_member, member.
  destruct (map_len (smr_TemplateParams r) =? 0)%nat;
    destruct (String.length (smr_ScheduledAt r) =? 0)%nat;
    cbn [json.encode app map json.writeObject];
    try destruct (json.encode (value_of_map (smr_TemplateParams r))) as [e|];
    flatten_text.
Qed.

Lemma encode_strings (ss : list string) :
  json.encode (VSlice (map VString ss))
  = Some ("[" +:+ String.concat "," (map json.appendString ss) +:+ "]").
Proof.
  cbn [json.encode].
  assert (mapM json.encode (map VString ss) = Some (map json.appendString ss)) as ->.
  { induction ss as [|s ss IH]; [done|]. cbn [map mapM]. cbn [json.encode].
    simpl. by rewrite IH. }
  done.
Qed.

(** X15. The body of a batch request: as for a single message, with
    [receivers] always written, as [null] for a nil slice and as an array
    of strings otherwise (an empty array for an empty slice). *)
Theorem SendBatchRequest_wire (r : SendBatchRequest) :
  json.Marshal (value_of_SendBatchRequest (Some r)) = SendBatchRequest_text r.
Proof.
  unfold json.Marshal, value_of_SendBatchRequest, SendBatchRequest_text,
    optional_members, omitempty_map, omitempty_string, next_member, member.
  assert (json.encode (value_of_strings (sbr_Receivers r))
          = Some (receivers_text (sbr_Receivers r))) as Hr.
  { destruct (sbr_Receivers r) as [ss|]; [apply encode_strings|done]. }
  destruct (map_len (sbr_TemplateParams r) =? 0)%nat;
    destruct (String.length (sbr_ScheduledAt r) =? 0)%nat;
    cbn [json.encode app map json.writeObject]; rewrite Hr;
    try destruct (json.encode (value_of_map (sbr_TemplateParams r))) as [e|];
    flatten_text.
Qed.

(** ** Requests and outcomes (client.go) *)

Section DispatcherExtras.

Context {Ctx : Type} (w : World Ctx).




(** X18. A call that fails before a request is built never reaches the
    HTTP client: whatever the client would do, [doRequest] returns no
    response and the error, which wraps a failure of serialization, of the
    decoding into a map or of the construction of the request. *)
Theorem early_failure_skips_exchange (c : Client Ctx) (ctx : Ctx)
    (method path : string) (reqData : option value) (e : error)
    (other : Ctx → Request → exchange) :
  outbound w c ctx method path reqData = inl e →
  doRequest w {| baseURL := baseURL c; appID := appID c; appSecret := appSecret c;
                 httpClient := other |} ctx method path reqData
  = (None, Some e) ∧
  ∃ cause, e = ErrWrap "marshal request data" cause ∨
           e = ErrWrap "unmarshal request data to map" cause ∨
           e = ErrWrap "create request" cause.
Proof.
  intros Hout. split.
  - apply doRequest_early_error. unfold exchangeEnvelope, try.
    replace (outbound w _ ctx method path reqData) with (inl e : error + Request); done.
  - unfold outbound, try in Hout.
    destruct (encodeRequest w reqData) as [e'|[b p]] eqn:Henc.
    + inversion Hout; subst. unfold encodeRequest, try in Henc.
      destruct reqData as [v|]; [|done].
      destruct (json.Marshal v) as [b|]; [|inversion Henc; eauto].
      destruct (json_Unmarshal w TParams b); inversion Henc; eauto.
    + simpl in Hout. unfold buildRequest, try in Hout.
      destruct (http_NewRequestWithContext w ctx method _ _); inversion Hout; eauto.
Qed.

(** The outcome of an operation, from the outcome of the exchange. *)
Lemma decodeData_cases (t : target) (c : Client Ctx) (ctx : Ctx)
    (method path : string) (reqData : option value) :
  decodeData w t (doRequest w c ctx method path reqData)
  = match exchangeEnvelope w c ctx method path reqData with
    | inl e => Returns None (Some e)
    | inr env =>
        if decide (Response.Code env ≠ 0)
        then Returns None
               (Some (ErrAPI (NewAPIError (Response.Code env) (Response.Message env))))
        else match json_Unmarshal w t (Response.Data env) with
             | inl e => Returns None (Some (ErrWrap "unmarshal response data" e))
             | inr data => Returns (Some data) None
             end
    end.
Proof.
  unfold doRequest.
  destruct (exchangeEnvelope w c ctx method path reqData) as [e|env]; [done|].
  by case_decide.
Qed.



Lemma decodeData_success_iff (t : target) (c : Client Ctx) (ctx : Ctx)
    (method path : string) (reqData : option value) (data : decoded t) :
  decodeData w t (doRequest w c ctx method path reqData) = Returns (Some data) None ↔
  ∃ env, exchangeEnvelope w c ctx method path reqData = inr env ∧
         Response.Code env = 0 ∧
         json_Unmarshal w t (Response.Data env) = inr data.
Proof.
  rewrite decodeData_cases.
  destruct (exchangeEnvelope w c ctx method path reqData) as [e|env].
  - split; [done|]. by intros (env & ? & _).
  - case_decide as Hc.
    + split; [done|]. intros (env' & He & Hz & _). inversion He; subst. done.
    + destruct (json_Unmarshal w t (Response.Data env)) as [e|d] eqn:Hu.
      * split; [done|]. intros (env' & He & _ & Hd). inversion He; subst. congruence.
      * split.
        -- intros H. inversion H; subst. exists env.
           destruct (decide (Response.Code env = 0)); [done|by destruct Hc].
        -- intros (env' & He & _ & Hd). inversion He; subst. congruence.
Qed.

(** X22. An operation succeeds exactly when the envelope is decoded, its
    code is zero and its [data] decodes; the result is the decoded data. *)
Theorem success_iff (c : Client Ctx) (ctx : Ctx) :
  (∀ req data,
     SendMessage w c ctx req = Returns (Some data) None ↔
     ∃ env, exchangeEnvelope w c ctx http_MethodPost "/api/v1/messages"
              (Some (value_of_SendMessageRequest req)) = inr env ∧
            Response.Code env = 0 ∧
            json_Unmarshal w TSendMessageData (Response.Data env) = inr data) ∧
  (∀ req data,
     SendBatch w c ctx req = Returns (Some data) None ↔
     ∃ env, exchangeEnvelope w c ctx http_MethodPost "/api/v1/messages/batch"
              (Some (value_of_SendBatchRequest req)) = inr env ∧
            Response.Code env = 0 ∧
            json_Unmarshal w TSendBatchData (Response.Data env) = inr data) ∧
  (∀ taskID data,
     QueryTask w c ctx taskID = Returns (Some data) None ↔
     ∃ env, exchangeEnvelope w c ctx http_MethodGet ("/api/v1/messages/" +:+ taskID)
              None = inr env ∧
            Response.Code env = 0 ∧
            json_Unmarshal w TQueryTaskData (Response.Data env) = inr data).
Proof.
  unfold SendMessage, SendBatch, QueryTask. split; [|split]; intros ? ?.
  - apply (decodeData_success_iff TSendMessageData).
  - apply (decodeData_success_iff TSendBatchData).
  - apply (decodeData_success_iff TQueryTaskData).
Qed.

Lemma decodeData_APIError (t : target) (c : Client Ctx) (ctx : Ctx)
    (method path : string) (reqData : option value)
    (data : option (decoded t)) (a : APIError) :
  decodeData w t (doRequest w c ctx method path reqData) = Returns data (Some (ErrAPI a)) →
  data = None ∧ Code a ≠ 0 ∧
  ∃ env, exchangeEnvelope w c ctx method path reqData = inr env ∧
         Response.Code env = Code a ∧ Response.Message env = Message a.
Proof.
  rewrite decodeData_cases.
  destruct (exchangeEnvelope w c ctx method path reqData) as [e|env] eqn:E.
  - intros H. inversion H; subst.
    by destruct (exchangeEnvelope_error w _ _ _ _ _ _ E) as (? & ? & ?).
  - case_decide as Hc.
    + intros H. inversion H; subst. simpl. repeat split; [done|]. by exists env.
    + by destruct (json_Unmarshal w t (Response.Data env)).
Qed.

(** X23. A business error only ever comes from an envelope: its code is
    the envelope's, never zero, and no result accompanies it. *)
Theorem APIError_origin (c : Client Ctx) (ctx : Ctx) (a : APIError) :
  (∀ req data,
     SendMessage w c ctx req = Returns data (Some (ErrAPI a)) →
     data = None ∧ Code a ≠ 0 ∧
     ∃ env, exchangeEnvelope w c ctx http_MethodPost "/api/v1/messages"
              (Some (value_of_SendMessageRequest req)) = inr env ∧
            Response.Code env = Code a ∧ Response.Message env = Message a) ∧
  (∀ req data,
     SendBatch w c ctx req = Returns data (Some (ErrAPI a)) →
     data = None ∧ Code a ≠ 0 ∧
     ∃ env, exchangeEnvelope w c ctx http_MethodPost "/api/v1/messages/batch"
              (Some (value_of_SendBatchRequest req)) = inr env ∧
            Response.Code env = Code a ∧ Response.Message env = Message a) ∧
  (∀ taskID data,
     QueryTask w c ctx taskID = Returns data (Some (ErrAPI a)) →
     data = None ∧ Code a ≠ 0 ∧
     ∃ env, exchangeEnvelope w c ctx http_MethodGet ("/api/v1/messages/" +:+ taskID)
              None = inr env ∧
            Response.Code env = Code a ∧ Response.Message env = Message a).
Proof.
  unfold SendMessage, SendBatch, QueryTask. split; [|split]; intros ? ?.
  - apply (decodeData_APIError TSendMessageData).
  - apply (decodeData_APIError TSendBatchData).
  - apply (decodeData_APIError TQueryTaskData).
Qed.


(** X19. A nil request pointer is not rejected: the payload is the JSON
    text [null], which is posted as the body with Content-Type and signed
    with empty parameters (the decoder leaves the map nil on [null]). *)
Theorem nil_request_is_sent (c : Client Ctx) (ctx : Ctx) (path : string) :
  json_Unmarshal w TParams "null" = inr None →
  http_NewRequest_error w ctx http_MethodPost (baseURL c +:+ path) = None →
  value_of_SendBatchRequest None = value_of_SendMessageRequest None ∧
  ∃ req,
    outbound w c ctx http_MethodPost path (Some (value_of_SendMessageRequest None))
    = inr req ∧
    Body req = Some "null" ∧
    Header req !! "Content-Type" = Some "application/json" ∧
    Header req !! "X-Signature"
    = Some (generateSignature http_MethodPost path None
              (FormatInt (time_Now_Unix w)) (uuid_New_String w) (appSecret c)).
Proof.
  intros Hnull Hok. split; [done|].
  unfold outbound, try, encodeRequest. cbn [value_of_SendMessageRequest json.Marshal
    json.encode]. unfold try. rewrite Hnull. cbn [fst snd].
  unfold buildRequest, try, http_NewRequestWithContext. rewrite Hok.
  eexists. split; [reflexivity|].
  cbn [Body Header Header_Set String.eqb Ascii.eqb Bool.eqb http_MethodPost
       String.length Nat.ltb Nat.leb].
  repeat split; by simplify_map_eq.
Qed.

End DispatcherExtras.

Example scenario_SendMessage :
  SendMessage Scenario.world Scenario.client () (Some Scenario.req)
  = Returns None (Some (ErrAPI (NewAPIError 20003 "signature invalid"))).
Proof. by vm_compute. Qed.

Lemma APIError_origin_witness :
  SendMessage Scenario.world Scenario.client () (Some Scenario.req)
  = Returns None (Some (ErrAPI (NewAPIError 20003 "signature invalid"))) ∧
  (None : option (decoded TSendMessageData)) = None ∧
  Code (NewAPIError 20003 "signature invalid") ≠ 0 ∧
  ∃ env, exchangeEnvelope Scenario.world Scenario.client () http_MethodPost
           "/api/v1/messages"
           (Some (value_of_SendMessageRequest (Some Scenario.req))) = inr env ∧
         Response.Code env = Code (NewAPIError 20003 "signature invalid") ∧
         Response.Message env = Message (NewAPIError 20003 "signature invalid").
Proof.
  split; [exact scenario_SendMessage|].
  exact (proj1 (APIError_origin Scenario.world Scenario.client ()
                  (NewAPIError 20003 "signature invalid"))
           (Some Scenario.req) None scenario_SendMessage).
Defined.



Lemma early_failure_skips_exchange_witness :
  outbound Scenario.world Scenario.client () http_MethodPost "/api/v1/messages"
    (Some (VOther None))
  = inl (ErrWrap "marshal request data" (ErrLib "json: unsupported type")) ∧
  doRequest Scenario.world
    {| baseURL := baseURL Scenario.client; appID := appID Scenario.client;
       appSecret := appSecret Scenario.client;
       httpClient := fun _ _ => DoFails (ErrLib "connection refused") |}
    () http_MethodPost "/api/v1/messages" (Some (VOther None))
  = (None, Some (ErrWrap "marshal request data" (ErrLib "json: unsupported type"))) ∧
  ∃ cause,
    ErrWrap "marshal request data" (ErrLib "json: unsupported type")
    = ErrWrap "marshal request data" cause ∨
    ErrWrap "marshal request data" (ErrLib "json: unsupported type")
    = ErrWrap "unmarshal request data to map" cause ∨
    ErrWrap "marshal request data" (ErrLib "json: unsupported type")
    = ErrWrap "create request" cause.
Proof.
  assert (outbound Scenario.world Scenario.client () http_MethodPost "/api/v1/messages"
            (Some (VOther None))
          = inl (ErrWrap "marshal request data" (ErrLib "json: unsupported type")))
    as Hout by reflexivity.
  split; [exact Hout|].
  exact (early_failure_skips_exchange Scenario.world Scenario.client ()
           http_MethodPost "/api/v1/messages" (Some (VOther None)) _
           (fun _ _ => DoFails (ErrLib "connection refused")) Hout).
Defined.

Lemma nil_request_is_sent_witness :
  json_Unmarshal Scenario.world TParams "null" = inr None ∧
  http_NewRequest_error Scenario.world () http_MethodPost
    (baseURL Scenario.client +:+ "/api/v1/messages") = None ∧
  value_of_SendBatchRequest None = value_of_SendMessageRequest None ∧
  ∃ req,
    outbound Scenario.world Scenario.client () http_MethodPost "/api/v1/messages"
      (Some (value_of_SendMessageRequest None)) = inr req ∧
    Body req = Some "null" ∧
    Header req !! "Content-Type" = Some "application/json" ∧
    Header req !! "X-Signature"
    = Some (generateSignature http_MethodPost "/api/v1/messages" None
              (FormatInt (time_Now_Unix Scenario.world))
              (uuid_New_String Scenario.world) (appSecret Scenario.client)).
Proof.
  split; [reflexivity|]. split; [reflexivity|].
  apply (nil_request_is_sent Scenario.world Scenario.client () "/api/v1/messages");
    reflexivity.
Defined.


